(** * PagerDuty acknowledge buttons: a model of [custom_components/pagerduty/button.py]

    The module keeps one button entity per incident whose status is
    "triggered".  It has three parts:
    - the start-up sweep of [async_setup_entry], which deletes registry
      entries left over from incidents that are no longer triggered;
    - the listener [async_add_remove_buttons], which on every coordinator
      update adds buttons for newly triggered incidents and pops the others;
    - the class [PagerDutyAcknowledgeButton] with its properties and
      [async_press].

    Python values are embedded as finite maps and tagged scalars, exceptions
    as an [outcome], and the mutable closure variable [tracked_buttons]
    together with the calls made on Home Assistant as an explicit [World]
    threaded through a state-and-exception monad. *)

From stdpp Require Import gmap strings list fin_maps pretty.

Open Scope string_scope.
Open Scope list_scope.

(** ** Python values *)

(** The hashable scalars of the JSON payload: [None], integers, strings. *)
Inductive atom :=
  | ANone
  | AInt (z : Z)
  | AStr (s : string).

Global Instance atom_eq_dec : EqDecision atom.
Proof. solve_decision. Defined.

Global Instance atom_countable : Countable atom.
Proof.
  refine (inj_countable'
    (λ a, match a with
          | ANone => inl ()
          | AInt z => inr (inl z)
          | AStr s => inr (inr s)
          end)
    (λ x, match x with
          | inl _ => ANone
          | inr (inl z) => AInt z
          | inr (inr s) => AStr s
          end) _).
  by intros [].
Defined.

(** A value is a scalar or an object (a [dict]) with scalar members, which is
    what the fields read by the module hold: [id], [status], [title] and
    [incident_number] are scalars, [service] is an object.  Booleans, floats
    and arrays are outside this fragment. *)
Inductive pyval :=
  | VAtom (a : atom)
  | VDict (d : gmap string atom).

Global Instance pyval_eq_dec : EqDecision pyval.
Proof. solve_decision. Defined.

Abbreviation VNone := (VAtom ANone).
Abbreviation VStr s := (VAtom (AStr s)).
Abbreviation VInt z := (VAtom (AInt z)).

(** An incident of the snapshot is a [dict] keyed by field name. *)
Abbreviation incident := (gmap string pyval).

(** [d.get(key)]: the value, [None] when the key is absent. *)
Definition py_get (d : incident) (key : string) : pyval :=
  default VNone (d !! key).

(** [d.get(key, dflt)]. *)
Definition py_get_default (d : incident) (key : string) (dflt : pyval) : pyval :=
  default dflt (d !! key).

(** [str(d)] for a [dict] is Python's built-in rendering, which the module
    does not define; it is taken as a parameter. *)
Class DictRepr := dict_repr : gmap string atom → string.

(** [str(v)], as an f-string placeholder [{v}] renders it. *)
Definition py_str `{DictRepr} (v : pyval) : string :=
  match v with
  | VAtom ANone => "None"
  | VAtom (AInt z) => pretty z
  | VAtom (AStr s) => s
  | VDict d => dict_repr d
  end.

(** ** Exceptions, outcomes *)

Inductive exn :=
  | TypeError            (* unhashable value used as a set element *)
  | AttributeError       (* [.get] on a value that is not a dict *)
  | KeyError             (* [dict.pop] of an absent key *)
  | RemoteError (cause : string).  (* raised by the transport or the refresh *)

Inductive outcome (A : Type) :=
  | Returned (a : A)
  | Raised (e : exn).
Arguments Returned {A} a.
Arguments Raised {A} e.

(** [hash(v)]: scalars are hashable, a [dict] is not. *)
Definition py_hash (v : pyval) : outcome atom :=
  match v with
  | VAtom a => Returned a
  | VDict _ => Raised TypeError
  end.

(** ** The button entity *)

(** The fields [__init__] stores.  [coordinator] and [_session] are
    references to shared collaborators; the operations below take their
    current state as an argument. *)
Record PagerDutyAcknowledgeButton := {
  _incident_id : pyval;
  _incident_number : pyval;
  _incident_title : pyval;
  _service_name : atom;
  _default_from_email : string;
  _attr_name : string;
  _attr_unique_id : string;
}.

(** [incident.get("service", {}).get("summary", "Unknown")] *)
Definition service_summary (inc : incident) : outcome atom :=
  match py_get_default inc "service" (VDict ∅) with
  | VDict service => Returned (default (AStr "Unknown") (service !! "summary"))
  | VAtom _ => Raised AttributeError
  end.

(** [PagerDutyAcknowledgeButton.__init__] *)
Definition new_button `{DictRepr} (inc : incident) (default_from_email : string)
    : outcome PagerDutyAcknowledgeButton :=
  let incident_id := py_get inc "id" in
  let incident_number := py_get inc "incident_number" in
  let incident_title := py_get_default inc "title" (VStr "Unknown") in
  match service_summary inc with
  | Raised e => Raised e
  | Returned service_name =>
      Returned {|
        _incident_id := incident_id;
        _incident_number := incident_number;
        _incident_title := incident_title;
        _service_name := service_name;
        _default_from_email := default_from_email;
        _attr_name := "Acknowledge Incident #" +:+ py_str incident_number;
        _attr_unique_id := "pagerduty_ack_" +:+ py_str incident_id;
      |}
  end.

(** [extra_state_attributes] *)
Definition extra_state_attributes (self : PagerDutyAcknowledgeButton)
    : gmap string pyval :=
  <["incident_id" := _incident_id self]>
  (<["incident_number" := _incident_number self]>
  (<["incident_title" := _incident_title self]>
  (<["service_name" := VAtom (_service_name self)]> ∅))).

(** ** Collaborators *)

(** The coordinator's [data]; [None] stands for a payload without the key
    ["incidents"]. *)
Record Coordinator := {
  data_incidents : option (list incident);
}.

(** [coordinator.data.get("incidents", [])] *)
Definition incidents (coordinator : Coordinator) : list incident :=
  default [] (data_incidents coordinator).

(** One request handed to the transport. *)
Record Request := {
  req_url : string;
  req_json : gmap string string;
  req_headers : gmap string string;
}.

(** The transport session: [rput] answers a request or raises. *)
Record Session := {
  rput : Request → outcome unit;
}.

(** Calls made on Home Assistant and on the collaborators, in order. *)
Inductive event :=
  | AddEntities (button : PagerDutyAcknowledgeButton)
      (* async_add_entities([button], True) *)
  | RemoveEntity (button : PagerDutyAcknowledgeButton)
      (* hass.async_create_task(button.async_remove(force_remove=True)) *)
  | Rput (request : Request)
      (* self._session.rput(...) *)
  | RequestRefresh.
      (* self.coordinator.async_request_refresh() *)

(** ** The world and its monad *)

Record World := {
  tracked_buttons : gmap atom PagerDutyAcknowledgeButton;
  log : list event;
}.

Definition M (A : Type) : Type := World → outcome A * World.

Global Instance M_ret : MRet M := λ A a w, (Returned a, w).
Global Instance M_bind : MBind M := λ A B k c w,
  match c w with
  | (Returned a, w') => k a w'
  | (Raised e, w') => (Raised e, w')
  end.
Definition raise {A} (e : exn) : M A := λ w, (Raised e, w).
(** [try: c  except Exception: raise]; the handler only logs. *)
Definition try_reraise {A} (c : M A) : M A :=
  λ w, match c w with
       | (Returned a, w') => (Returned a, w')
       | (Raised e, w') => (Raised e, w')
       end.
Definition lift {A} (o : outcome A) : M A := λ w, (o, w).
Definition emit (e : event) : M unit :=
  λ w, (Returned (), {| tracked_buttons := tracked_buttons w; log := log w ++ [e] |}).
Definition get_tracked : M (gmap atom PagerDutyAcknowledgeButton) :=
  λ w, (Returned (tracked_buttons w), w).
Definition set_tracked (t : gmap atom PagerDutyAcknowledgeButton) : M unit :=
  λ w, (Returned (), {| tracked_buttons := t; log := log w |}).

(** ** [async_add_remove_buttons] *)

(** [incident.get("status") == "triggered"] *)
Definition is_triggered (inc : incident) : bool :=
  bool_decide (py_get inc "status" = VStr "triggered").

Section listener.
Context `{DictRepr}.
Variable default_from_email : string.

(** Body of the first loop, for one incident; the local set
    [triggered_incident_ids] is the accumulator. *)
Definition add_button_step (triggered_incident_ids : gset atom) (inc : incident)
    : M (gset atom) :=
  if is_triggered inc then
    let incident_id := py_get inc "id" in
    key ← lift (py_hash incident_id);
    let triggered_incident_ids := triggered_incident_ids ∪ {[key]} in
    tracked ← get_tracked;
    match tracked !! key with
    | None =>
        button ← lift (new_button inc default_from_email);
        set_tracked (<[key := button]> tracked);;
        emit (AddEntities button);;
        mret triggered_incident_ids
    | Some _ => mret triggered_incident_ids
    end
  else mret triggered_incident_ids.

(** [for incident in incidents: ...] *)
Fixpoint add_buttons (triggered_incident_ids : gset atom) (l : list incident)
    : M (gset atom) :=
  match l with
  | [] => mret triggered_incident_ids
  | inc :: rest =>
      ids ← add_button_step triggered_incident_ids inc;
      add_buttons ids rest
  end.

(** Body of the second loop, for one key. *)
Definition remove_button_step (triggered_incident_ids : gset atom)
    (incident_id : atom) : M unit :=
  if bool_decide (incident_id ∈ triggered_incident_ids) then mret ()
  else
    tracked ← get_tracked;
    match tracked !! incident_id with
    | None => raise KeyError
    | Some button =>
        set_tracked (delete incident_id tracked);;
        emit (RemoveEntity button)
    end.

(** [for incident_id in list(tracked_buttons.keys()): ...] *)
Fixpoint remove_buttons (triggered_incident_ids : gset atom) (keys : list atom)
    : M unit :=
  match keys with
  | [] => mret ()
  | incident_id :: rest =>
      remove_button_step triggered_incident_ids incident_id;;
      remove_buttons triggered_incident_ids rest
  end.

(** The listener.  The keys of [tracked_buttons] are visited in the order
    of the finite map, each once. *)
Definition async_add_remove_buttons (coordinator : Coordinator) : M unit :=
  triggered_incident_ids ← add_buttons ∅ (incidents coordinator);
  tracked ← get_tracked;
  remove_buttons triggered_incident_ids (map_to_list tracked).*1.
End listener.

(** ** Properties and actions of a button *)

(** [available]: the first incident of the current snapshot carrying the
    button's id decides. *)
Fixpoint available_in (self : PagerDutyAcknowledgeButton) (l : list incident) : bool :=
  match l with
  | [] => false
  | inc :: rest =>
      if bool_decide (py_get inc "id" = _incident_id self)
      then bool_decide (py_get inc "status" = VStr "triggered")
      else available_in self rest
  end.

Definition available (self : PagerDutyAcknowledgeButton) (coordinator : Coordinator)
    : bool :=
  available_in self (incidents coordinator).

Section press.
Context `{DictRepr}.

(** The request [_acknowledge_incident] builds. *)
Definition acknowledge_request (self : PagerDutyAcknowledgeButton) : Request :=
  let incident_url := "/incidents/" +:+ py_str (_incident_id self) in
  let headers : gmap string string :=
    if bool_decide (_default_from_email self = "") then ∅
    else <["From" := _default_from_email self]> ∅ in
  {| req_url := incident_url;
     req_json := <["type" := "incident"]> (<["status" := "acknowledged"]> ∅);
     req_headers := headers |}.

(** [_acknowledge_incident]: one [rput], whose exception is not caught. *)
Definition _acknowledge_incident (self : PagerDutyAcknowledgeButton)
    (session : Session) : M unit :=
  let request := acknowledge_request self in
  emit (Rput request);;
  lift (rput session request).

(** [coordinator.async_request_refresh()], with the outcome the
    coordinator gives it. *)
Definition async_request_refresh (refresh : outcome unit) : M unit :=
  emit RequestRefresh;;
  lift refresh.

(** [async_press] *)
Definition async_press (self : PagerDutyAcknowledgeButton)
    (session : Session) (refresh : outcome unit) : M unit :=
  try_reraise (
    _acknowledge_incident self session;;
    async_request_refresh refresh).
End press.

(** ** [async_setup_entry]: the sweep of the entity registry *)

(** A registry entry. *)
Record RegistryEntry := {
  unique_id : string;
  config_entry_id : string;
}.

(** The entity registry: its entries, each with the [entity_id] it is
    registered under, in the order in which the registry lists them. *)
Abbreviation EntityRegistry := (list (string * RegistryEntry)).

(** [er.async_entries_for_config_entry(entity_reg, entry_id)]: the entries
    of one config entry, each with its [entity_id], in the registry's
    order. *)
Definition async_entries_for_config_entry (entity_reg : EntityRegistry)
    (entry_id : string) : list (string * RegistryEntry) :=
  filter (λ entity, config_entry_id entity.2 = entry_id) entity_reg.

(** [entity_reg.async_remove(entity_id)] *)
Definition async_remove (entity_id : string) (entity_reg : EntityRegistry)
    : EntityRegistry :=
  filter (λ entity, entity.1 ≠ entity_id) entity_reg.

(** [entity.unique_id and entity.unique_id.startswith("pagerduty_ack_")] *)
Definition is_ack_button (entity : string * RegistryEntry) : bool :=
  negb (String.eqb (unique_id entity.2) "")
  && String.prefix "pagerduty_ack_" (unique_id entity.2).

(** [d[key] = value] on a Python dict, kept as the list of its items in
    their order: the value of a key that is present is replaced where it
    stands, a new key goes to the end. *)
Fixpoint pydict_set {V : Type} (key : string) (value : V)
    (d : list (string * V)) : list (string * V) :=
  match d with
  | [] => [(key, value)]
  | (k, v) :: rest =>
      if decide (k = key) then (key, value) :: rest
      else (k, v) :: pydict_set key value rest
  end.

(** The dict comprehension [existing_button_entities]: the entities are
    taken in the order of the listing, so a later entity replaces an earlier
    one with the same [unique_id]. *)
Definition existing_button_entities (existing_entities : list (string * RegistryEntry))
    : list (string * (string * RegistryEntry)) :=
  foldl (λ d entity, if is_ack_button entity
                     then pydict_set (unique_id entity.2) entity d else d)
        [] existing_entities.

Section setup.
Context `{DictRepr}.

(** The set comprehension [current_triggered_ids]. *)
Definition current_triggered_ids (coordinator : Coordinator) : gset string :=
  list_to_set ((λ inc, "pagerduty_ack_" +:+ py_str (py_get inc "id"))
               <$> filter (λ inc, is_triggered inc) (incidents coordinator)).

(** The entities whose [entity_id] the clean-up loop passes to
    [async_remove], in the order of the loop: the values of the items of
    [existing_button_entities] whose key is not in [current_triggered_ids]. *)
Definition orphaned_entities (existing_entities : list (string * RegistryEntry))
    (coordinator : Coordinator) : list (string * RegistryEntry) :=
  (filter (λ item, item.1 ∉ current_triggered_ids coordinator)
          (existing_button_entities existing_entities)).*2.

(** The clean-up loop: [entity_reg.async_remove(entity.entity_id)] for
    every item whose key is not in [current_triggered_ids]. *)
Definition remove_orphaned_entities (entity_reg : EntityRegistry)
    (entry_id : string) (coordinator : Coordinator) : EntityRegistry :=
  let existing_entities := async_entries_for_config_entry entity_reg entry_id in
  let current := current_triggered_ids coordinator in
  foldl (λ reg item,
           if bool_decide (item.1 ∈ current) then reg
           else async_remove (item.2).1 reg)
        entity_reg (existing_button_entities existing_entities).

(** [async_setup_entry]: sweep, then [tracked_buttons = {}] and the
    initial call of the listener. *)
Definition async_setup_entry (entity_reg : EntityRegistry) (entry_id : string)
    (default_from_email : string) (coordinator : Coordinator)
    : EntityRegistry * (outcome unit * World) :=
  (remove_orphaned_entities entity_reg entry_id coordinator,
   async_add_remove_buttons default_from_email coordinator
     {| tracked_buttons := ∅; log := [] |}).
End setup.

(** A rendering of dicts for closed examples, none of which renders one. *)
Definition braces_repr : DictRepr := λ _, "{...}".


(** ** Predicates used in the statements *)

(** [k] is the id of some incident of [l] whose status is "triggered". *)
Definition triggered_key (l : list incident) (k : atom) : Prop :=
  ∃ inc, inc ∈ l ∧ is_triggered inc ∧ py_get inc "id" = VAtom k.

(** An entry on which neither [set.add] nor [__init__] raises: its id is
    hashable (an absent id reads as [None]) and its [service], when present,
    is an object. *)
Definition well_formed_entry (inc : incident) : Prop :=
  (∃ k, py_get inc "id" = VAtom k) ∧ (∃ s, service_summary inc = Returned s).


(** [entity] stands in the listing [l], and no entity listed after it has
    its [unique_id]. *)
Definition listed_last_under_its_unique_id (l : list (string * RegistryEntry))
    (entity : string * RegistryEntry) : Prop :=
  ∃ pre post, l = pre ++ entity :: post ∧
    ∀ other, other ∈ post → unique_id other.2 ≠ unique_id entity.2.

(** ** Sample data *)

(** A triggered incident as PagerDuty reports it. *)
Definition incident_A : incident :=
  <["id" := VStr "A"]>
  (<["status" := VStr "triggered"]>
  (<["incident_number" := VInt 7]>
  (<["title" := VStr "Disk full"]>
  (<["service" := VDict (<["summary" := AStr "db"]> ∅)]> ∅)))).

(** The same incident later on: acknowledged, and renamed. *)
Definition incident_A_acknowledged : incident :=
  <["status" := VStr "acknowledged"]> (<["title" := VStr "Disk ok"]> incident_A).

(** The same incident still triggered, with another title. *)
Definition incident_A_renamed : incident :=
  <["title" := VStr "Disk almost full"]> incident_A.

(** The button [__init__] builds for [incident_A] with no email configured. *)
Definition button_A : PagerDutyAcknowledgeButton :=
  {| _incident_id := VStr "A";
     _incident_number := VInt 7;
     _incident_title := VStr "Disk full";
     _service_name := AStr "db";
     _default_from_email := "";
     _attr_name := "Acknowledge Incident #7";
     _attr_unique_id := "pagerduty_ack_A" |}.

Definition incident_B : incident :=
  <["id" := VStr "B"]>
  (<["status" := VStr "triggered"]>
  (<["incident_number" := VInt 8]> ∅)).

(** A triggered entry without the field ["id"]. *)
Definition entry_without_id : incident :=
  <["status" := VStr "triggered"]> (<["incident_number" := VInt 9]> ∅).

(** A triggered entry whose [service] is a string. *)
Definition entry_with_bad_service : incident :=
  <["id" := VStr "C"]>
  (<["status" := VStr "triggered"]> (<["service" := VStr "db"]> ∅)).

Definition snapshot (l : list incident) : Coordinator :=
  {| data_incidents := Some l |}.

Definition empty_world : World := {| tracked_buttons := ∅; log := [] |}.

(** A transport that accepts every request, and one that rejects them. *)
Definition accepting_session : Session := {| rput := λ _, Returned () |}.
Definition failing_session : Session :=
  {| rput := λ _, Raised (RemoteError "HTTP 403") |}.

(** Three leftover acknowledge buttons, for incidents 1, 2 and 3, next to a
    sensor of the same config entry and a button of another one. *)
Definition registry_123 : EntityRegistry :=
  [ ("button.acknowledge_incident_1",
      {| unique_id := "pagerduty_ack_1"; config_entry_id := "entry" |});
    ("button.acknowledge_incident_2",
      {| unique_id := "pagerduty_ack_2"; config_entry_id := "entry" |});
    ("button.acknowledge_incident_3",
      {| unique_id := "pagerduty_ack_3"; config_entry_id := "entry" |});
    ("sensor.pagerduty_total",
      {| unique_id := "pagerduty_total_incidents"; config_entry_id := "entry" |});
    ("button.other",
      {| unique_id := "pagerduty_ack_1"; config_entry_id := "other" |}) ].


(** A snapshot in which incident 2 is triggered and incident 3 resolved. *)
Definition snapshot_only_2 : Coordinator :=
  {| data_incidents := Some
       [ <["id" := VStr "2"]> (<["status" := VStr "triggered"]> ∅);
         <["id" := VStr "3"]> (<["status" := VStr "resolved"]> ∅) ] |}.

(** ** Invariant of the tracked buttons *)

(** Every tracked button is one [__init__] built, with the configured
    email, from an incident whose id is the key it is filed under. *)
Definition tracked_consistent `{DictRepr} (default_from_email : string)
    (w : World) : Prop :=
  ∀ k b, tracked_buttons w !! k = Some b →
    ∃ inc, new_button inc default_from_email = Returned b ∧
           py_get inc "id" = VAtom k.

(** ** [config_flow.py] *)

(** [s.replace(pat, "")]: the occurrences of [pat] are dropped, scanning from
    the left and without overlap; [skip] counts the characters of a matched
    occurrence still to drop. *)
Fixpoint drop_occurrences (pat : string) (skip : nat) (s : string) : string :=
  match s with
  | EmptyString => EmptyString
  | String a rest =>
      match skip with
      | S n => drop_occurrences pat n rest
      | O =>
          if String.prefix pat s
          then drop_occurrences pat (String.length pat - 1) rest
          else String a (drop_occurrences pat 0 rest)
      end
  end.

(** Whether the character [c] occurs in [s]. *)
Fixpoint contains_char (c : Ascii.ascii) (s : string) : bool :=
  match s with
  | EmptyString => false
  | String a rest => if Ascii.eqb a c then true else contains_char c rest
  end.

(** The character ".". *)
Definition dot : Ascii.ascii :=
  match "." with
  | String a _ => a
  | EmptyString => Ascii.zero
  end.

Definition py_replace_with_empty (pat s : string) : string :=
  if String.eqb pat "" then s else drop_occurrences pat 0 s.

Section config_flow.
(** [json] stands for the payloads the PagerDuty API returns.  The constants
    [CONF_API_KEY] (of Home Assistant) and [REQUIRED_ROLES] (of [const.py])
    are imported by the module and taken as parameters. *)
Context {json : Type}.
Variable CONF_API_KEY : string.
Variable REQUIRED_ROLES : list string.

(** A value of the form input or of the entry data: a string, or a payload
    of the API. *)
Inductive cfgval :=
  | CStr (s : string)
  | CJson (j : json).

(** One [session.rget], with the key and the URL the session was given. *)
Record ApiRequest := {
  api_key_used : cfgval;
  api_url : string;
  api_path : string;
  api_params : gmap string string;
}.

(** What [rget] does: it returns a payload, raises [pagerduty.Error] (or a
    subclass), or raises something else. *)
Inductive api_answer :=
  | Answer (payload : json)
  | PagerDutyError
  | OtherException (name : string).

(** What a step of a flow returns. *)
Inductive FlowResult :=
  | CreateEntry (title : string) (data : gmap string cfgval)
      (* self.async_create_entry(title=..., data=...) *)
  | ShowForm (step_id : string) (defaults : gmap string cfgval)
      (errors : gmap string string).
      (* self.async_show_form(step_id=..., data_schema=..., errors=...) *)

(** [_get_api_url] *)
Definition _get_api_url (api_server : cfgval) : string :=
  match api_server with
  | CStr s =>
      if String.eqb s "US" then "https://api.pagerduty.com"
      else "https://api.eu.pagerduty.com"
  | CJson _ => "https://api.eu.pagerduty.com"
  end.

(** The [pagerduty] package, as the flow uses it.  The constructor
    [RestApiV2Client(api_key)] builds a session ([None]) or raises the
    exception of the given name; which keys it refuses is the library's
    choice.  [rget] answers a request of a session. *)
Record PagerDutyApi := {
  RestApiV2Client : cfgval → option string;
  rget : ApiRequest → api_answer;
}.

(** [_test_api_key_and_fetch_user_data], with the requests it has sent.  The
    session is built before the [try]: an exception of the constructor
    propagates, whatever its class, and nothing has been sent then. *)
Definition _test_api_key_and_fetch_user_data (api : PagerDutyApi)
    (api_key : cfgval) (api_base_url : string)
    : outcome (bool * gmap string cfgval) * list ApiRequest :=
  let abilities_request :=
    {| api_key_used := api_key; api_url := api_base_url;
       api_path := "/abilities"; api_params := ∅ |} in
  let user_request :=
    {| api_key_used := api_key; api_url := api_base_url;
       api_path := "/users/me";
       api_params := <["include[]" := "teams"]> ∅ |} in
  match RestApiV2Client api api_key with
  | Some name => (Raised (RemoteError name), [])
  | None =>
      match rget api abilities_request with
      | Answer abilities =>
          match rget api user_request with
          | Answer user =>
              (Returned (true, <["user" := CJson user]> ∅),
               [abilities_request; user_request])
          | PagerDutyError =>
              (Returned (false, ∅), [abilities_request; user_request])
          | OtherException name =>
              (Raised (RemoteError name), [abilities_request; user_request])
          end
      | PagerDutyError => (Returned (false, ∅), [abilities_request])
      | OtherException name => (Raised (RemoteError name), [abilities_request])
      end
  end.

(** The defaults of the schema of the user step. *)
Definition user_form_defaults : gmap string cfgval :=
  <["ignored_team_ids" := CStr ""]> (<["api_server" := CStr "US"]> ∅).

(** [PagerDutyConfigFlow.async_step_user] *)
Definition async_step_user (api : PagerDutyApi)
    (user_input : option (gmap string cfgval))
    : outcome FlowResult * list ApiRequest :=
  match user_input with
  | None => (Returned (ShowForm "user" user_form_defaults ∅), [])
  | Some user_input =>
      let api_base_url :=
        _get_api_url (default (CStr "US") (user_input !! "api_server")) in
      match user_input !! CONF_API_KEY with
      | None => (Raised KeyError, [])
      | Some api_key =>
          match _test_api_key_and_fetch_user_data api api_key api_base_url with
          | (Raised e, requests) => (Raised e, requests)
          | (Returned (valid, user_data), requests) =>
              let user_input := if valid then user_data ∪ user_input
                                else user_input in
              let errors : gmap string string :=
                if valid then ∅
                else <["base" := "invalid_api_key_or_roles"]> ∅ in
              if decide (errors = ∅)
              then (Returned (CreateEntry "PagerDuty"
                                (<["api_base_url" := CStr api_base_url]>
                                   user_input)),
                    requests)
              else (Returned (ShowForm "user" user_form_defaults errors),
                    requests)
          end
      end
  end.

(** [_validate_user_roles] *)
Definition _validate_user_roles (abilities : list string) : bool :=
  let processed_abilities : gset string :=
    foldl (λ acc ability,
             acc ∪ {[py_replace_with_empty ".read" ability]})
          ∅ abilities in
  existsb (λ role, bool_decide (role ∈ processed_abilities)) REQUIRED_ROLES.

(** The config entry, as the options flow reads it. *)
Record ConfigEntry := {
  entry_data : gmap string cfgval;
  entry_options : gmap string cfgval;
}.

(** [PagerDutyOptionsFlow.async_step_init] *)
Definition async_step_init (config_entry : ConfigEntry)
    (user_input : option (gmap string cfgval)) : FlowResult :=
  match user_input with
  | Some user_input => CreateEntry "" user_input
  | None =>
      let current key :=
        default (default (CStr "") (entry_data config_entry !! key))
                (entry_options config_entry !! key) in
      ShowForm "init"
        (<["extra_incident_attributes_template" :=
             current "extra_incident_attributes_template"]>
        (<["default_from_email" := current "default_from_email"]> ∅))
        ∅
  end.
End config_flow.

Arguments CStr {json} s.
Arguments CJson {json} j.
Arguments Answer {json} payload.
Arguments PagerDutyError {json}.
Arguments OtherException {json} name.
Arguments CreateEntry {json} title data.
Arguments ShowForm {json} step_id defaults errors.

(** Sample data for the config flow: payloads are kept as text.  The
    constructor refuses a key that is empty or not a string with a
    [ValueError]; the API answers every request made with the key "good" by
    echoing its path, and rejects every other key. *)
Definition sample_api : @PagerDutyApi string :=
  {| RestApiV2Client := λ api_key,
       match api_key with
       | CStr key => if String.eqb key "" then Some "ValueError" else None
       | CJson _ => Some "ValueError"
       end;
     rget := λ q,
       match api_key_used q with
       | CStr key => if String.eqb key "good" then Answer (api_path q)
                     else PagerDutyError
       | CJson _ => PagerDutyError
       end |}.

Definition sample_user_input : gmap string (@cfgval string) :=
  <["api_key" := CStr "good"]>
  (<["api_server" := CStr "EU"]>
  (<["ignored_team_ids" := CStr "T1"]> ∅)).

(** * Properties *)

Ltac unfold_monad :=
  unfold mbind, M_bind, mret, M_ret, lift, raise, emit, get_tracked,
    set_tracked, try_reraise in *.

Section listener_facts.
Context `{DictRepr}.
Variable default_from_email : string.

Local Abbreviation step := (add_button_step default_from_email).
Local Abbreviation loop1 := (add_buttons default_from_email).

Lemma new_button_returns inc :
  (∃ s, service_summary inc = Returned s) →
  ∃ b, new_button inc default_from_email = Returned b.
Proof. intros [s Hs]. unfold new_button. rewrite Hs. eauto. Qed.

(** A step that raises has changed nothing. *)
Lemma add_button_step_raised ids inc w e w' :
  step ids inc w = (Raised e, w') → w' = w.
Proof.
  unfold add_button_step. destruct (is_triggered inc); unfold_monad; [|done].
  destruct (py_hash (py_get inc "id")); simpl; [|congruence].
  destruct (tracked_buttons w !! a); simpl; [done|].
  destruct (new_button inc default_from_email); simpl; congruence.
Qed.

(** What a step that returns has done. *)
Lemma add_button_step_returned ids inc w ids' w' :
  step ids inc w = (Returned ids', w') →
  if is_triggered inc then
    ∃ k, py_get inc "id" = VAtom k ∧ ids' = ids ∪ {[k]} ∧
      match tracked_buttons w !! k with
      | Some _ => w' = w
      | None => ∃ b, new_button inc default_from_email = Returned b ∧
          w' = {| tracked_buttons := <[k := b]> (tracked_buttons w);
                  log := log w ++ [AddEntities b] |}
      end
  else ids' = ids ∧ w' = w.
Proof.
  unfold add_button_step. destruct (is_triggered inc); unfold_monad;
    [|by intros [= -> ->]].
  destruct (py_get inc "id") as [k|d]; simpl; [|done].
  intros Hs. exists k. split; [done|].
  destruct (tracked_buttons w !! k) eqn:Hk; simpl in Hs.
  - by injection Hs as <- <-.
  - destruct (new_button inc default_from_email) as [b|]; simpl in Hs; [|done].
    injection Hs as <- <-. eauto.
Qed.

Lemma add_buttons_cons ids inc rest w :
  loop1 ids (inc :: rest) w =
    match step ids inc w with
    | (Returned ids1, w1) => loop1 ids1 rest w1
    | (Raised e, w1) => (Raised e, w1)
    end.
Proof. done. Qed.

(** The first loop never replaces or drops a tracked button, whether it
    returns or raises. *)
Lemma add_buttons_frame l : ∀ ids w r w',
  loop1 ids l w = (r, w') →
  ∀ k b, tracked_buttons w !! k = Some b → tracked_buttons w' !! k = Some b.
Proof.
  induction l as [|inc rest IH]; intros ids w r w' Hrun k b Hk.
  - by injection Hrun as <- <-.
  - rewrite add_buttons_cons in Hrun.
    destruct (step ids inc w) as [[ids1|e] w1] eqn:Hstep.
    + eapply IH; [done|].
      apply add_button_step_returned in Hstep.
      destruct (is_triggered inc); [|by destruct Hstep as [_ ->]].
      destruct Hstep as (k0 & _ & _ & Hw1).
      destruct (tracked_buttons w !! k0) eqn:Hk0; [by subst|].
      destruct Hw1 as (b0 & _ & ->). simpl.
      rewrite lookup_insert_ne; [done|congruence].
    + injection Hrun as <- <-.
      by apply add_button_step_raised in Hstep as ->.
Qed.

(** The log only grows. *)
Lemma add_buttons_log l : ∀ ids w r w',
  loop1 ids l w = (r, w') → ∃ evs, log w' = log w ++ evs.
Proof.
  induction l as [|inc rest IH]; intros ids w r w' Hrun.
  - injection Hrun as <- <-. exists []. by rewrite app_nil_r.
  - rewrite add_buttons_cons in Hrun.
    destruct (step ids inc w) as [[ids1|e] w1] eqn:Hstep.
    + apply IH in Hrun as [evs Hevs].
      apply add_button_step_returned in Hstep.
      destruct (is_triggered inc); [|destruct Hstep as [_ ->]; eauto].
      destruct Hstep as (k0 & _ & _ & Hw1).
      destruct (tracked_buttons w !! k0); [subst; eauto|].
      destruct Hw1 as (b0 & _ & ->). simpl in Hevs.
      exists ([AddEntities b0] ++ evs). by rewrite Hevs, app_assoc.
    + injection Hrun as <- <-.
      apply add_button_step_raised in Hstep as ->.
      exists []. by rewrite app_nil_r.
Qed.

Lemma triggered_key_cons inc rest k :
  triggered_key (inc :: rest) k ↔
  (is_triggered inc ∧ py_get inc "id" = VAtom k) ∨ triggered_key rest k.
Proof.
  unfold triggered_key. split.
  - intros (i & Hi & Ht & Hid). apply elem_of_cons in Hi as [->|Hi]; eauto.
  - intros [[Ht Hid]|(i & Hi & Ht & Hid)].
    + exists inc. split; [left|done].
    + exists i. split; [by right|done].
Qed.

Lemma triggered_key_nil k : ¬ triggered_key [] k.
Proof. intros (i & Hi & _). by apply elem_of_nil in Hi. Qed.

(** What the first loop has done when it returns: the local set and the
    keys of [tracked_buttons] have grown by the triggered ids, and the log
    by one [AddEntities] per button that was not tracked before. *)
Lemma add_buttons_returned l : ∀ ids w ids' w',
  loop1 ids l w = (Returned ids', w') →
  (∀ k, k ∈ ids' ↔ k ∈ ids ∨ triggered_key l k) ∧
  (∀ k, is_Some (tracked_buttons w' !! k) ↔
        is_Some (tracked_buttons w !! k) ∨ triggered_key l k) ∧
  ∃ added, log w' = log w ++ (AddEntities <$> added) ∧
    ∀ b, b ∈ added ↔
         ∃ k, tracked_buttons w !! k = None ∧ tracked_buttons w' !! k = Some b.
Proof.
  induction l as [|inc rest IH]; intros ids w ids' w' Hrun.
  - injection Hrun as <- <-. split_and!.
    + intros k. pose proof (triggered_key_nil k). tauto.
    + intros k. pose proof (triggered_key_nil k). tauto.
    + exists []. split; [by rewrite app_nil_r|].
      intros b. split; [by intros ?%elem_of_nil|].
      intros (k & Hn & Hs). congruence.
  - rewrite add_buttons_cons in Hrun.
    destruct (step ids inc w) as [[ids1|e] w1] eqn:Hstep; [|done].
    pose proof (add_buttons_frame _ _ _ _ _ Hrun) as Hframe.
    apply IH in Hrun as (Hids & Hdom & added & Hlog & Hadded).
    apply add_button_step_returned in Hstep.
    destruct (is_triggered inc) eqn:Htrig.
    + destruct Hstep as (k0 & Hid0 & -> & Hw1).
      assert (∀ k, triggered_key (inc :: rest) k ↔ k = k0 ∨ triggered_key rest k)
        as Htk.
      { intros k. rewrite triggered_key_cons, Htrig, Hid0. split.
        - intros [[_ [= ->]]|?]; [by left|by right].
        - intros [->|?]; [by left|by right]. }
      assert (∀ k, k ∈ ids' ↔ k ∈ ids ∨ triggered_key (inc :: rest) k) as Hids'.
      { intros k. rewrite Hids, Htk, elem_of_union, elem_of_singleton. tauto. }
      destruct (tracked_buttons w !! k0) as [b0|] eqn:Hlk.
      * subst w1. split_and!; [done| |eauto].
        intros k. rewrite Hdom, Htk. split; [tauto|].
        intros [?|[->|?]]; [by left|left; eauto|by right].
      * destruct Hw1 as (b0 & Hnew & ->). simpl in *. split_and!; [done| |].
        -- intros k. rewrite Hdom, Htk, lookup_insert_is_Some.
           destruct (decide (k0 = k)) as [->|Hne]; intuition congruence.
        -- exists (b0 :: added). split.
           { rewrite Hlog. simpl. by rewrite <- app_assoc. }
           intros b. rewrite elem_of_cons, Hadded. split.
           ++ intros [->|(k & Hn & Hs)].
              ** exists k0. split; [done|].
                 apply Hframe. by rewrite lookup_insert_eq.
              ** exists k. split; [|done].
                 destruct (decide (k0 = k)) as [->|Hne].
                 --- by rewrite lookup_insert_eq in Hn.
                 --- by rewrite lookup_insert_ne in Hn.
           ++ intros (k & Hn & Hs).
              destruct (decide (k0 = k)) as [->|Hne].
              ** left. specialize (Hframe k b0).
                 rewrite lookup_insert_eq in Hframe.
                 specialize (Hframe eq_refl). congruence.
              ** right. exists k. by rewrite lookup_insert_ne.
    + destruct Hstep as [-> ->].
      assert (∀ k, triggered_key (inc :: rest) k ↔ triggered_key rest k) as Htk.
      { intros k. rewrite triggered_key_cons, Htrig. split; [|by right].
        by intros [[? _]|?]. }
      split_and!; [| |eauto].
      * intros k. by rewrite Hids, Htk.
      * intros k. by rewrite Hdom, Htk.
Qed.

(** On well-formed triggered entries the first loop returns. *)
Lemma add_buttons_completes l : ∀ ids w,
  (∀ inc, inc ∈ l → is_triggered inc → well_formed_entry inc) →
  ∃ ids' w', loop1 ids l w = (Returned ids', w').
Proof.
  induction l as [|inc rest IH]; intros ids w Hwf; [by eexists _, _|].
  rewrite add_buttons_cons.
  assert (∃ ids1 w1, step ids inc w = (Returned ids1, w1)) as (ids1 & w1 & ->).
  { unfold add_button_step. destruct (is_triggered inc) eqn:Ht; [|by eexists _, _].
    destruct (Hwf inc) as [[k Hk] Hsvc]; [by left|by rewrite Ht|].
    apply new_button_returns in Hsvc as [b Hb].
    unfold_monad. rewrite Hk. simpl.
    destruct (tracked_buttons w !! k); simpl; [by eexists _, _|].
    rewrite Hb. simpl. by eexists _, _. }
  apply IH. intros i Hi. apply Hwf. by right.
Qed.

(** When every triggered entry is already tracked, the first loop touches
    neither [tracked_buttons] nor the log. *)
Lemma add_buttons_all_tracked l : ∀ ids w,
  (∀ inc, inc ∈ l → is_triggered inc →
     ∃ k, py_get inc "id" = VAtom k ∧ is_Some (tracked_buttons w !! k)) →
  ∃ ids', loop1 ids l w = (Returned ids', w).
Proof.
  induction l as [|inc rest IH]; intros ids w Hall; [by eexists|].
  rewrite add_buttons_cons.
  assert (∃ ids1, step ids inc w = (Returned ids1, w)) as (ids1 & ->).
  { unfold add_button_step. destruct (is_triggered inc) eqn:Ht; [|by eexists].
    destruct (Hall inc) as (k & Hk & [b Hb]); [by left|by rewrite Ht|].
    unfold_monad. rewrite Hk. simpl. rewrite Hb. by eexists. }
  apply IH. intros i Hi. apply Hall. by right.
Qed.

Local Abbreviation loop2 := remove_buttons.

Lemma remove_buttons_cons ids k rest w :
  loop2 ids (k :: rest) w =
    match remove_button_step ids k w with
    | (Returned _, w1) => loop2 ids rest w1
    | (Raised e, w1) => (Raised e, w1)
    end.
Proof. done. Qed.

(** The second loop, run over distinct tracked keys, returns; it pops the
    keys outside the set, logging one [RemoveEntity] for each, and leaves
    the others. *)
Lemma remove_buttons_returns ids ks : ∀ w,
  NoDup ks →
  (∀ k, k ∈ ks → is_Some (tracked_buttons w !! k)) →
  ∃ w', loop2 ids ks w = (Returned (), w') ∧
    (∀ k, k ∈ ks → k ∉ ids → tracked_buttons w' !! k = None) ∧
    (∀ k, (k ∉ ks ∨ k ∈ ids) → tracked_buttons w' !! k = tracked_buttons w !! k) ∧
    ∃ removed, log w' = log w ++ (RemoveEntity <$> removed) ∧
      ∀ b, b ∈ removed ↔
           ∃ k, k ∈ ks ∧ (k ∉ ids) ∧ tracked_buttons w !! k = Some b.
Proof.
  induction ks as [|k0 rest IH]; intros w Hnd Hks.
  - exists w. split_and!; [done| |done|].
    + by intros k ?%elem_of_nil.
    + exists []. split; [by rewrite app_nil_r|].
      intros b. split; [by intros ?%elem_of_nil|].
      by intros (k & ?%elem_of_nil & _).
  - apply NoDup_cons in Hnd as [Hk0 Hnd].
    rewrite remove_buttons_cons. unfold remove_button_step.
    case_bool_decide as Hin.
    + unfold_monad.
      destruct (IH w Hnd) as (w' & -> & Hgone & Hkept & removed & Hlog & Hrem).
      { intros k Hk. apply Hks. by right. }
      exists w'. split_and!; [done| | |].
      * intros k [->|Hk]%elem_of_cons Hout; [done|by apply Hgone].
      * intros k [Hk|Hk]; apply Hkept; [|by right].
        left. intros Hr. apply Hk. by right.
      * exists removed. split; [done|]. intros b. rewrite Hrem. split.
        -- intros (k & Hk & Hout & Hb). exists k. split; [by right|done].
        -- intros (k & [->|Hk]%elem_of_cons & Hout & Hb); [done|eauto].
    + destruct (Hks k0) as [b0 Hb0]; [by left|].
      unfold_monad. simpl. rewrite Hb0. simpl.
      set (w1 := {| tracked_buttons := delete k0 (tracked_buttons w);
                    log := log w ++ [RemoveEntity b0] |}).
      destruct (IH w1 Hnd) as (w' & -> & Hgone & Hkept & removed & Hlog & Hrem).
      { intros k Hk. simpl. rewrite lookup_delete_ne; [|by intros ->].
        apply Hks. by right. }
      simpl in *.
      exists w'. split_and!; [done| | |].
      * intros k [->|Hk]%elem_of_cons Hout; [|by apply Hgone].
        rewrite Hkept; [by rewrite lookup_delete_eq|by left].
      * intros k Hk.
        assert (k ≠ k0) as Hne.
        { intros ->. destruct Hk as [Hk|Hk]; [apply Hk; by left|done]. }
        rewrite Hkept; [by rewrite lookup_delete_ne|].
        destruct Hk as [Hk|Hk]; [|by right].
        left. intros Hr. apply Hk. by right.
      * exists (b0 :: removed). split.
        { rewrite Hlog. simpl. by rewrite <- app_assoc. }
        intros b. rewrite elem_of_cons, Hrem. split.
        -- intros [->|(k & Hk & Hout & Hb)].
           ++ exists k0. split; [by left|done].
           ++ exists k. split; [by right|]. split; [done|].
              rewrite lookup_delete_ne in Hb; [done|by intros ->].
        -- intros (k & [->|Hk]%elem_of_cons & Hout & Hb).
           ++ left. congruence.
           ++ right. exists k. split; [done|]. split; [done|].
              rewrite lookup_delete_ne; [done|by intros ->].
Qed.

(** When every key is in the set the second loop does nothing. *)
Lemma remove_buttons_all_kept ids ks : ∀ w,
  (∀ k, k ∈ ks → k ∈ ids) → loop2 ids ks w = (Returned (), w).
Proof.
  induction ks as [|k0 rest IH]; intros w Hall; [done|].
  rewrite remove_buttons_cons. unfold remove_button_step.
  rewrite bool_decide_eq_true_2; [|apply Hall; by left].
  unfold_monad. apply IH. intros k Hk. apply Hall. by right.
Qed.

Lemma elem_of_keys (m : gmap atom PagerDutyAcknowledgeButton) k :
  k ∈ (map_to_list m).*1 ↔ is_Some (m !! k).
Proof.
  rewrite list_elem_of_fmap. split.
  - intros ([k' b] & -> & Hkb). apply elem_of_map_to_list in Hkb. eauto.
  - intros [b Hb]. exists (k, b). split; [done|]. by apply elem_of_map_to_list.
Qed.

Local Abbreviation pass := (async_add_remove_buttons default_from_email).

Lemma pass_unfold c w :
  pass c w =
    match loop1 ∅ (incidents c) w with
    | (Returned ids, w1) => loop2 ids (map_to_list (tracked_buttons w1)).*1 w1
    | (Raised e, w1) => (Raised e, w1)
    end.
Proof. done. Qed.

(** A pass that returns: the state and the log it leaves. *)
Lemma pass_returned c w w' :
  pass c w = (Returned (), w') →
  (∀ k, is_Some (tracked_buttons w' !! k) ↔ triggered_key (incidents c) k) ∧
  (∀ k b, tracked_buttons w !! k = Some b → triggered_key (incidents c) k →
          tracked_buttons w' !! k = Some b) ∧
  ∃ created destroyed,
    log w' = log w ++ (AddEntities <$> created) ++ (RemoveEntity <$> destroyed) ∧
    (∀ b, b ∈ created ↔
          ∃ k, tracked_buttons w !! k = None ∧ tracked_buttons w' !! k = Some b) ∧
    (∀ b, b ∈ destroyed ↔
          ∃ k, tracked_buttons w !! k = Some b ∧ tracked_buttons w' !! k = None).
Proof.
  rewrite pass_unfold.
  destruct (loop1 ∅ (incidents c) w) as [[ids|e] w1] eqn:Hl1; [|done].
  pose proof (add_buttons_frame _ _ _ _ _ Hl1) as Hframe.
  apply add_buttons_returned in Hl1 as (Hids & Hdom & created & Hlog1 & Hcr).
  assert (∀ k, k ∈ ids ↔ triggered_key (incidents c) k) as Hids'.
  { intros k. rewrite Hids. split; [|by right].
    by intros [?%not_elem_of_empty|?]. }
  destruct (remove_buttons_returns ids (map_to_list (tracked_buttons w1)).*1 w1)
    as (w2 & Hl2 & Hgone & Hkept & destroyed & Hlog2 & Hde).
  { apply NoDup_fst_map_to_list. }
  { intros k. by rewrite elem_of_keys. }
  rewrite Hl2. intros [= <-].
  assert (∀ k, is_Some (tracked_buttons w2 !! k) ↔ triggered_key (incidents c) k)
    as Hkeys.
  { intros k. destruct (decide (k ∈ ids)) as [Hin|Hout].
    - rewrite Hkept by (by right). rewrite Hdom.
      apply Hids' in Hin. tauto.
    - rewrite <- Hids'. split; [|done].
      destruct (decide (k ∈ (map_to_list (tracked_buttons w1)).*1)) as [Hk|Hk].
      + rewrite (Hgone k Hk Hout). by intros [? ?].
      + rewrite Hkept by (by left). by rewrite <- elem_of_keys. }
  split_and!; [done| |].
  - intros k b Hb Hk. rewrite Hkept; [by apply Hframe|]. right. by apply Hids'.
  - exists created, destroyed. split_and!.
    + by rewrite Hlog2, Hlog1, <- app_assoc.
    + intros b. rewrite Hcr. split; intros (k & Hn & Hs); exists k; (split; [done|]).
      * rewrite Hkept; [done|]. right. apply Hids'.
        assert (is_Some (tracked_buttons w1 !! k)) as Hs' by eauto.
        apply Hdom in Hs' as [[? ?]|?]; [congruence|done].
      * assert (k ∈ ids) as Hin by (apply Hids', Hkeys; eauto).
        rewrite Hkept in Hs; [done|by right].
    + intros b. rewrite Hde. split.
      * intros (k & Hk & Hout & Hb). exists k. split; [|by apply Hgone].
        apply elem_of_keys, Hdom in Hk as [[b' Hb']|Hk]; [|by apply Hids' in Hk].
        apply Hframe in Hb' as Hb''. congruence.
      * intros (k & Hb & Hn). exists k.
        assert (k ∉ ids) as Hout.
        { intros Hin. apply Hids', Hkeys in Hin as [? ?]. congruence. }
        split_and!; [|done|by apply Hframe].
        apply elem_of_keys. apply Hframe in Hb. eauto.
Qed.

(** A pass over a snapshot whose triggered entries are well formed returns. *)
Lemma pass_completes c w :
  (∀ inc, inc ∈ incidents c → is_triggered inc → well_formed_entry inc) →
  ∃ w', pass c w = (Returned (), w').
Proof.
  intros Hwf. rewrite pass_unfold.
  destruct (add_buttons_completes (incidents c) ∅ w Hwf) as (ids & w1 & ->).
  destruct (remove_buttons_returns ids (map_to_list (tracked_buttons w1)).*1 w1)
    as (w2 & -> & _); eauto.
  - apply NoDup_fst_map_to_list.
  - intros k. by rewrite elem_of_keys.
Qed.

(** A tracked button whose id is triggered in the snapshot survives the pass,
    whatever its outcome. *)
Lemma pass_frame c w r w' k b :
  pass c w = (r, w') →
  tracked_buttons w !! k = Some b → triggered_key (incidents c) k →
  tracked_buttons w' !! k = Some b.
Proof.
  rewrite pass_unfold. intros Hrun Hb Hk.
  destruct (loop1 ∅ (incidents c) w) as [[ids|e] w1] eqn:Hl1.
  - pose proof (add_buttons_frame _ _ _ _ _ Hl1 _ _ Hb) as Hb1.
    apply add_buttons_returned in Hl1 as (Hids & _).
    destruct (remove_buttons_returns ids (map_to_list (tracked_buttons w1)).*1 w1)
      as (w2 & Hl2 & _ & Hkept & _).
    { apply NoDup_fst_map_to_list. }
    { intros k'. by rewrite elem_of_keys. }
    rewrite Hl2 in Hrun. injection Hrun as <- <-.
    rewrite Hkept; [done|]. right. apply Hids. by right.
  - injection Hrun as <- <-. eapply add_buttons_frame; eauto.
Qed.

(** ** The reconciliation pass *)

(** C1: when a pass over a snapshot completes, the keys of [tracked_buttons]
    are exactly the ids of the incidents of the snapshot whose status is
    "triggered": every triggered id that was not tracked has a button
    inserted and announced, every tracked id that is not triggered has its
    button popped and scheduled for removal, and there is no other key.  The
    pass does complete whenever the triggered entries are well formed. *)
Theorem reconcile_tracks_exactly_triggered c w :
  ((∀ inc, inc ∈ incidents c → is_triggered inc → well_formed_entry inc) →
   ∃ w', async_add_remove_buttons default_from_email c w = (Returned (), w')) ∧
  ∀ w', async_add_remove_buttons default_from_email c w = (Returned (), w') →
    (∀ k, k ∈ dom (tracked_buttons w') ↔ triggered_key (incidents c) k) ∧
    ∃ created destroyed,
      log w' = log w ++ (AddEntities <$> created) ++ (RemoveEntity <$> destroyed) ∧
      (∀ k, triggered_key (incidents c) k → tracked_buttons w !! k = None →
            ∃ b, tracked_buttons w' !! k = Some b ∧ b ∈ created) ∧
      (∀ k b, tracked_buttons w !! k = Some b → ¬ triggered_key (incidents c) k →
              tracked_buttons w' !! k = None ∧ b ∈ destroyed).
Proof.
  split; [apply pass_completes|].
  intros w' (Hkeys & _ & created & destroyed & Hlog & Hcr & Hde)%pass_returned.
  split.
  - intros k. by rewrite elem_of_dom.
  - exists created, destroyed. split_and!; [done| |].
    + intros k [b Hb]%Hkeys Hn. exists b. split; [done|].
      apply Hcr. eauto.
    + intros k b Hb Hk.
      assert (tracked_buttons w' !! k = None) as Hn.
      { apply eq_None_not_Some. by rewrite Hkeys. }
      split; [done|]. apply Hde. eauto.
Qed.

(** C2: a second pass over the same snapshot, right after one that
    completed, completes too and changes nothing: [tracked_buttons] is the
    same map and the log has no new [AddEntities] or [RemoveEntity]. *)
Theorem reconcile_idempotent c w w' :
  async_add_remove_buttons default_from_email c w = (Returned (), w') →
  ∃ w'', async_add_remove_buttons default_from_email c w' = (Returned (), w'') ∧
    tracked_buttons w'' = tracked_buttons w' ∧ log w'' = log w'.
Proof.
  intros Hrun. exists w'. split; [|done].
  pose proof Hrun as (Hkeys & _)%pass_returned.
  rewrite pass_unfold in Hrun |- *.
  destruct (loop1 ∅ (incidents c) w) as [[ids|e] w1] eqn:Hl1; [|done].
  assert (∀ inc, inc ∈ incidents c → is_triggered inc →
            ∃ k, py_get inc "id" = VAtom k ∧ is_Some (tracked_buttons w' !! k))
    as Hall.
  { intros inc Hin Ht.
    assert (∃ k, py_get inc "id" = VAtom k) as [k Hk].
    { clear -Hl1 Hin Ht. revert ids w w1 Hl1.
      generalize (∅ : gset atom).
      induction (incidents c) as [|i rest IH]; intros ids0 ids w w1 Hl1;
        [by apply elem_of_nil in Hin|].
      rewrite add_buttons_cons in Hl1.
      destruct (step ids0 i w) as [[ids1|e] w0] eqn:Hstep; [|done].
      apply elem_of_cons in Hin as [->|Hin]; [|by eapply IH].
      apply add_button_step_returned in Hstep.
      destruct (is_triggered i); [|done].
      destruct Hstep as (k & Hk & _). eauto. }
    exists k. split; [done|]. apply Hkeys. by exists inc. }
  destruct (add_buttons_all_tracked (incidents c) ∅ w' Hall) as [ids' Hl1'].
  rewrite Hl1'.
  apply remove_buttons_all_kept.
  intros k Hk%elem_of_keys%Hkeys.
  apply add_buttons_returned in Hl1' as (Hids' & _).
  apply Hids'. by right.
Qed.

(** C9: a button that is tracked before a pass and whose id is triggered in
    the new snapshot is left as it is, whether the pass returns or raises:
    the same object stays under its key, so the attributes it shows are
    those captured when it was built, not those of the new snapshot. *)
Theorem reconcile_keeps_tracked_button c w r w' k b :
  tracked_buttons w !! k = Some b →
  triggered_key (incidents c) k →
  async_add_remove_buttons default_from_email c w = (r, w') →
  tracked_buttons w' !! k = Some b ∧
  extra_state_attributes <$> tracked_buttons w' !! k
    = Some (extra_state_attributes b).
Proof.
  intros Hb Hk Hrun.
  assert (tracked_buttons w' !! k = Some b) as -> by (by eapply pass_frame).
  done.
Qed.

(** C7 (as the code has it): an entry with status "triggered" and no ["id"]
    field is not skipped.  Its id reads as [None]; provided the triggered
    entries have hashable ids and object-valued services, the pass returns,
    a button is tracked under the key [None], and the keys tracked are
    exactly the triggered ids of the snapshot, so every other entry has been
    processed as well. *)
Theorem reconcile_tracks_missing_id_as_none c w inc :
  inc ∈ incidents c →
  is_triggered inc →
  inc !! "id" = None →
  (∃ s, service_summary inc = Returned s) →
  (∀ i, i ∈ incidents c → is_triggered i → i ≠ inc → well_formed_entry i) →
  ∃ w', async_add_remove_buttons default_from_email c w = (Returned (), w') ∧
    is_Some (tracked_buttons w' !! ANone) ∧
    ∀ k, is_Some (tracked_buttons w' !! k) ↔ triggered_key (incidents c) k.
Proof.
  intros Hin Ht Hid Hsvc Hothers.
  assert (py_get inc "id" = VNone) as Hnone by (unfold py_get; by rewrite Hid).
  destruct (pass_completes c w) as [w' Hrun].
  { intros i Hi Hti. destruct (decide (i = inc)) as [->|Hne]; [|by apply Hothers].
    split; [by exists ANone|done]. }
  exists w'. split; [done|].
  apply pass_returned in Hrun as (Hkeys & _).
  split; [|done]. apply Hkeys. by exists inc.
Qed.
End listener_facts.


(** ** The button *)

Lemma available_in_first_match self pre inc post :
  (∀ i, i ∈ pre → py_get i "id" ≠ _incident_id self) →
  py_get inc "id" = _incident_id self →
  available_in self (pre ++ inc :: post)
    = bool_decide (py_get inc "status" = VStr "triggered").
Proof.
  intros Hpre Hid. induction pre as [|i pre IH]; simpl.
  - by rewrite bool_decide_eq_true_2.
  - rewrite bool_decide_eq_false_2; [|apply Hpre; by left].
    apply IH. intros j Hj. apply Hpre. by right.
Qed.

Lemma available_in_no_match self l :
  (∀ i, i ∈ l → py_get i "id" ≠ _incident_id self) →
  available_in self l = false.
Proof.
  intros Hl. induction l as [|i l IH]; simpl; [done|].
  rewrite bool_decide_eq_false_2; [|apply Hl; by left].
  apply IH. intros j Hj. apply Hl. by right.
Qed.

Lemma available_in_true self l :
  available_in self l = true →
  ∃ inc, inc ∈ l ∧ py_get inc "id" = _incident_id self ∧
         py_get inc "status" = VStr "triggered".
Proof.
  induction l as [|i l IH]; simpl; [done|].
  case_bool_decide as Hid.
  - intros Hst%bool_decide_eq_true. exists i. split; [by left|done].
  - intros (inc & Hin & Hinc)%IH. exists inc. split; [by right|done].
Qed.

(** C6: [available] answers true only if the current snapshot holds an
    incident with the button's id and status "triggered"; it answers false
    when no incident has that id, and when the incident found for that id
    has any other status. *)
Theorem available_only_if_triggered self c :
  (available self c = true →
   ∃ inc, inc ∈ incidents c ∧ py_get inc "id" = _incident_id self ∧
          py_get inc "status" = VStr "triggered") ∧
  ((∀ i, i ∈ incidents c → py_get i "id" ≠ _incident_id self) →
   available self c = false) ∧
  (∀ pre inc post,
     incidents c = pre ++ inc :: post →
     (∀ i, i ∈ pre → py_get i "id" ≠ _incident_id self) →
     py_get inc "id" = _incident_id self →
     py_get inc "status" ≠ VStr "triggered" →
     available self c = false).
Proof.
  unfold available. split_and!.
  - apply available_in_true.
  - apply available_in_no_match.
  - intros pre inc post -> Hpre Hid Hst.
    rewrite available_in_first_match by done.
    by apply bool_decide_eq_false_2.
Qed.

(** C10: with several entries carrying the button's id, the first one in
    snapshot order decides alone: [available] is true exactly when that
    entry's status is "triggered", whatever the later entries say. *)
Theorem available_first_match_decides self c pre inc post :
  incidents c = pre ++ inc :: post →
  (∀ i, i ∈ pre → py_get i "id" ≠ _incident_id self) →
  py_get inc "id" = _incident_id self →
  available self c = bool_decide (py_get inc "status" = VStr "triggered").
Proof.
  unfold available. intros -> Hpre Hid. by apply available_in_first_match.
Qed.

Section button_facts.
Context `{DictRepr}.

(** C8 (as the code has it): the button built for an incident has the
    unique id "pagerduty_ack_" followed by the incident's id, and the name
    "Acknowledge Incident #" followed by its [incident_number], both rendered
    as [str] does; the constructor returns whenever [service] is absent or
    an object. *)
Theorem button_unique_id_and_name inc default_from_email :
  ((∃ s, service_summary inc = Returned s) →
   ∃ b, new_button inc default_from_email = Returned b) ∧
  (∀ b, new_button inc default_from_email = Returned b →
     _attr_unique_id b = "pagerduty_ack_" +:+ py_str (py_get inc "id") ∧
     _attr_name b = "Acknowledge Incident #" +:+ py_str (py_get inc "incident_number") ∧
     (∀ s, inc !! "id" = Some (VStr s) → _attr_unique_id b = "pagerduty_ack_" +:+ s) ∧
     (∀ n, inc !! "incident_number" = Some (VInt n) →
           _attr_name b = "Acknowledge Incident #" +:+ pretty n)).
Proof.
  split; [apply new_button_returns|].
  intros b. unfold new_button.
  destruct (service_summary inc); [|done]. intros [= <-]. simpl.
  split_and!; [done|done| |].
  - intros s Hs. unfold py_get. by rewrite Hs.
  - intros n Hn. unfold py_get. by rewrite Hn.
Qed.

Lemma async_press_unfold self session refresh w :
  async_press self session refresh w =
    let request := acknowledge_request self in
    let w1 := {| tracked_buttons := tracked_buttons w;
                 log := log w ++ [Rput request] |} in
    match rput session request with
    | Returned _ =>
        (refresh, {| tracked_buttons := tracked_buttons w;
                     log := log w ++ [Rput request; RequestRefresh] |})
    | Raised e => (Raised e, w1)
    end.
Proof.
  unfold async_press, _acknowledge_incident, async_request_refresh.
  unfold_monad. simpl.
  destruct (rput session (acknowledge_request self)); simpl; [|done].
  rewrite <- app_assoc. simpl. by destruct refresh.
Qed.

(** C5: one press issues exactly one [rput], to "/incidents/<id>", with the
    body {type: incident, status: acknowledged}; the request has a "From"
    header, holding the configured email, exactly when that email is not
    empty.  Nothing is retried: no second [rput] is logged. *)
Theorem press_issues_one_rput self session refresh w :
  ∃ r w' rest,
    async_press self session refresh w = (r, w') ∧
    log w' = log w ++ Rput (acknowledge_request self) :: rest ∧
    (∀ q, Rput q ∉ rest) ∧
    req_url (acknowledge_request self)
      = "/incidents/" +:+ py_str (_incident_id self) ∧
    req_json (acknowledge_request self)
      = <["type" := "incident"]> (<["status" := "acknowledged"]> ∅) ∧
    (is_Some (req_headers (acknowledge_request self) !! "From")
       ↔ _default_from_email self ≠ "") ∧
    (∀ k v, req_headers (acknowledge_request self) !! k = Some v →
            k = "From" ∧ v = _default_from_email self).
Proof.
  rewrite async_press_unfold. simpl.
  assert (is_Some (req_headers (acknowledge_request self) !! "From")
            ↔ _default_from_email self ≠ "") as Hfrom.
  { unfold acknowledge_request. simpl. case_bool_decide as He.
    - rewrite lookup_empty. split; [by intros [? ?]|done].
    - rewrite lookup_insert_eq. split; [done|eauto]. }
  assert (∀ k v, req_headers (acknowledge_request self) !! k = Some v →
            k = "From" ∧ v = _default_from_email self) as Honly.
  { intros k v. unfold acknowledge_request. simpl. case_bool_decide as He.
    - by rewrite lookup_empty.
    - intros [[<- <-]|[_ Hk]]%lookup_insert_Some; [done|].
      by rewrite lookup_empty in Hk. }
  destruct (rput session (acknowledge_request self)) as [[]|e].
  - eexists refresh, _, [RequestRefresh]. split_and!; try done.
    intros q [Hq|Hq]%elem_of_cons; [done|by apply elem_of_nil in Hq].
  - eexists (Raised e), _, []. split_and!; try done.
    intros q Hq. by apply elem_of_nil in Hq.
Qed.

(** C4: the press asks the coordinator for a refresh exactly when the
    [rput] succeeded, and asks after it.  When the [rput] raises, the press
    raises the same exception, asks for no refresh, and leaves
    [tracked_buttons], hence every stored button, as it was. *)
Theorem press_refreshes_iff_acknowledged self session refresh w :
  ∃ r w' evs,
    async_press self session refresh w = (r, w') ∧
    log w' = log w ++ evs ∧
    tracked_buttons w' = tracked_buttons w ∧
    (RequestRefresh ∈ evs ↔ rput session (acknowledge_request self) = Returned ()) ∧
    (rput session (acknowledge_request self) = Returned () →
     evs = [Rput (acknowledge_request self); RequestRefresh] ∧ r = refresh) ∧
    (∀ e, rput session (acknowledge_request self) = Raised e →
          r = Raised e ∧ evs = [Rput (acknowledge_request self)]).
Proof.
  rewrite async_press_unfold. simpl.
  destruct (rput session (acknowledge_request self)) as [[]|e].
  - eexists refresh, _, [Rput (acknowledge_request self); RequestRefresh].
    split_and!; try done. split; [done|]. intros _. right. by left.
  - eexists (Raised e), _, [Rput (acknowledge_request self)].
    split_and!; try done.
    split; [|done]. intros [Hq|Hq]%elem_of_cons; [done|].
    by apply elem_of_nil in Hq.
Qed.
End button_facts.


(** ** The start-up sweep *)

Lemma append_cons a p x : String a p +:+ x = String a (p +:+ x).
Proof. reflexivity. Qed.

(** [s.startswith(p)] holds exactly when [s] is [p] followed by something. *)
Lemma prefix_spec p s : String.prefix p s = true ↔ ∃ x, s = p +:+ x.
Proof.
  revert s. induction p as [|a p IH]; intros [|b s]; simpl.
  - split; [by exists ""|done].
  - split; [by eexists|done].
  - split; [done|]. intros [x Hx]. by rewrite append_cons in Hx.
  - setoid_rewrite append_cons.
    destruct (Ascii.ascii_dec a b) as [->|Hne].
    + rewrite IH. split; intros [x Hx]; exists x; congruence.
    + split; [done|]. intros [x Hx]. congruence.
Qed.

(** The test on the [unique_id] amounts to the prefix test: a string with
    that prefix is not empty. *)
Lemma is_ack_button_prefix entity :
  is_ack_button entity = String.prefix "pagerduty_ack_" (unique_id entity.2).
Proof.
  unfold is_ack_button. by destruct (unique_id entity.2).
Qed.

Lemma is_ack_button_same_id entity other :
  unique_id entity.2 = unique_id other.2 →
  is_ack_button entity = is_ack_button other.
Proof. unfold is_ack_button. by intros ->. Qed.

(** *** The dict of the comprehension *)

Lemma pydict_set_keys {V} key (value : V) d k :
  k ∈ (pydict_set key value d).*1 ↔ k = key ∨ k ∈ d.*1.
Proof.
  induction d as [|[k0 v0] d IH]; simpl.
  - rewrite list_elem_of_singleton, elem_of_nil. tauto.
  - destruct (decide (k0 = key)) as [->|Hne]; simpl.
    + rewrite !elem_of_cons. tauto.
    + rewrite !elem_of_cons, IH. tauto.
Qed.

(** Assigning keeps the keys distinct. *)
Lemma pydict_set_NoDup {V} key (value : V) d :
  NoDup d.*1 → NoDup (pydict_set key value d).*1.
Proof.
  induction d as [|[k0 v0] d IH]; simpl.
  - intros _. apply NoDup_singleton.
  - intros [Hk0 Hd]%NoDup_cons.
    destruct (decide (k0 = key)) as [->|Hne]; simpl.
    + by apply NoDup_cons.
    + apply NoDup_cons. split; [|by apply IH].
      rewrite pydict_set_keys. intros [?|?]; done.
Qed.

(** After [d[key] = value], the items are [(key, value)] and the items of
    [d] under the other keys. *)
Lemma elem_of_pydict_set {V} key (value : V) d k v :
  NoDup d.*1 →
  (k, v) ∈ pydict_set key value d ↔
  (k = key ∧ v = value) ∨ (k ≠ key ∧ (k, v) ∈ d).
Proof.
  induction d as [|[k0 v0] d IH]; simpl.
  - intros _. rewrite list_elem_of_singleton, elem_of_nil.
    split; [intros [= -> ->]; by left|]. intros [[-> ->]|[_ []]]. done.
  - intros [Hk0 Hd]%NoDup_cons.
    destruct (decide (k0 = key)) as [->|Hne].
    + rewrite !elem_of_cons. split.
      * intros [[= -> ->]|Hin]; [by left|]. right. split; [|by right].
        intros ->. apply Hk0. apply list_elem_of_fmap. by exists (key, v).
      * intros [[-> ->]|[Hk [[= -> ->]|Hin]]]; [by left|done|by right].
    + rewrite !elem_of_cons, (IH Hd). split.
      * intros [[= -> ->]|[[-> ->]|[Hk Hin]]].
        -- right. split; [done|by left].
        -- by left.
        -- right. split; [done|by right].
      * intros [[-> ->]|[Hk [[= -> ->]|Hin]]].
        -- right. by left.
        -- by left.
        -- right. right. done.
Qed.

Lemma existing_button_entities_snoc l entity :
  existing_button_entities (l ++ [entity]) =
    if is_ack_button entity
    then pydict_set (unique_id entity.2) entity (existing_button_entities l)
    else existing_button_entities l.
Proof. unfold existing_button_entities. by rewrite foldl_app. Qed.

(** *** The entity listed last under a [unique_id] *)

Lemma listed_last_elem_of l entity :
  listed_last_under_its_unique_id l entity → entity ∈ l.
Proof.
  intros (pre & post & -> & _). apply elem_of_app. right. by left.
Qed.

Lemma listed_last_snoc l x entity :
  listed_last_under_its_unique_id (l ++ [x]) entity ↔
  entity = x ∨
  (listed_last_under_its_unique_id l entity ∧
   unique_id x.2 ≠ unique_id entity.2).
Proof.
  split.
  - intros (pre & post & Heq & Hpost).
    destruct post as [|y post _] using rev_ind.
    + apply app_inj_tail in Heq as [_ ->]. by left.
    + rewrite app_comm_cons, app_assoc in Heq.
      apply app_inj_tail in Heq as [-> ->]. right. split.
      * exists pre, post. split; [done|].
        intros other Hin. apply Hpost. apply elem_of_app. by left.
      * apply Hpost. apply elem_of_app. right. by left.
  - intros [->|[(pre & post & -> & Hpost) Hx]].
    + exists l, []. split; [done|]. by intros other ?%elem_of_nil.
    + exists pre, (post ++ [x]). split; [by rewrite <- app_assoc|].
      intros other [Hin|Hin%list_elem_of_singleton]%elem_of_app;
        [by apply Hpost|by subst other].
Qed.

(** Every [unique_id] of the listing has an entity listed last under it. *)
Lemma listed_last_exists l entity :
  entity ∈ l →
  ∃ last, listed_last_under_its_unique_id l last ∧
          unique_id last.2 = unique_id entity.2.
Proof.
  induction l as [|x l IH] using rev_ind; [by intros ?%elem_of_nil|].
  intros Hin.
  destruct (decide (unique_id x.2 = unique_id entity.2)) as [Heq|Hne].
  - exists x. split; [|done]. apply listed_last_snoc. by left.
  - apply elem_of_app in Hin as [Hin|Hin%list_elem_of_singleton];
      [|by subst x].
    destruct (IH Hin) as (last & Hlast & Hu).
    exists last. split; [|done]. apply listed_last_snoc. right.
    split; [done|]. by rewrite Hu.
Qed.

(** The items of the dict are the acknowledge-button entities of the
    listing that are listed last under their [unique_id], each filed under
    it. *)
Lemma existing_button_entities_spec l :
  NoDup (existing_button_entities l).*1 ∧
  ∀ u entity, (u, entity) ∈ existing_button_entities l ↔
    is_ack_button entity ∧ unique_id entity.2 = u ∧
    listed_last_under_its_unique_id l entity.
Proof.
  induction l as [|x l [IHnd IH]] using rev_ind.
  - split; [apply NoDup_nil_2|]. intros u entity. split.
    + by intros ?%elem_of_nil.
    + intros (_ & _ & ?%listed_last_elem_of). by apply elem_of_nil in H.
  - rewrite existing_button_entities_snoc.
    destruct (is_ack_button x) eqn:Hx.
    + split; [by apply pydict_set_NoDup|]. intros u entity.
      rewrite (elem_of_pydict_set _ _ _ _ _ IHnd), IH, listed_last_snoc.
      split.
      * intros [[-> ->]|(Hu & Hack & <- & Hlast)].
        -- rewrite Hx. split_and!; [done|done|by left].
        -- split_and!; [done|done|]. right. split; [done|]. congruence.
      * intros (Hack & <- & [->|[Hlast Hne]]); [by left|].
        right. split_and!; [congruence|done|done|done].
    + split; [done|]. intros u entity. rewrite IH, listed_last_snoc.
      split.
      * intros (Hack & Hu & Hlast). split_and!; [done|done|].
        right. split; [done|]. intros Heq.
        rewrite (is_ack_button_same_id _ _ Heq) in Hx. by rewrite Hx in Hack.
      * intros (Hack & Hu & [->|[Hlast _]]); [|done].
        rewrite Hx in Hack. done.
Qed.

Lemma entries_for_config_entry_spec (entity_reg : EntityRegistry) entry_id entity :
  entity ∈ async_entries_for_config_entry entity_reg entry_id ↔
  entity ∈ entity_reg ∧ config_entry_id entity.2 = entry_id.
Proof.
  unfold async_entries_for_config_entry.
  rewrite list_elem_of_filter. tauto.
Qed.

(** *** The clean-up loop *)

Lemma list_filter_all {A} (P : A → Prop) `{!∀ x, Decision (P x)} (l : list A) :
  (∀ x, P x) → filter P l = l.
Proof.
  intros HP. induction l as [|x l IH]; [done|].
  rewrite filter_cons_True by done. by rewrite IH.
Qed.

Section sweep_loop.
Context {A : Type} (keep : A → bool) (target : A → string).

Local Abbreviation clean := (λ (reg : EntityRegistry) (item : A),
  if keep item then reg else async_remove (target item) reg).

(** The clean-up loop drops from the registry the entries registered under
    the [entity_id] of an item it does not keep, and nothing else. *)
Lemma sweep_loop_filter (l : list A) : ∀ reg : EntityRegistry,
  foldl clean reg l =
  filter (λ entity, entity.1 ∉ target <$> filter (λ item, keep item = false) l) reg.
Proof.
  induction l as [|x l IH]; intros reg; simpl.
  - symmetry. apply list_filter_all. intros entity. apply not_elem_of_nil.
  - rewrite IH. destruct (keep x) eqn:Hx.
    + by rewrite filter_cons_False by congruence.
    + rewrite filter_cons_True by done. unfold async_remove.
      rewrite list_filter_filter. apply list_filter_iff.
      intros entity. simpl. rewrite not_elem_of_cons. tauto.
Qed.
End sweep_loop.

Lemma append_inj_l p x y : p +:+ x = p +:+ y → x = y.
Proof.
  induction p as [|a p IH]; [done|].
  rewrite !append_cons. intros [= ?]. by apply IH.
Qed.

Section sweep_facts.
Context `{DictRepr}.

Lemma current_triggered_ids_spec c u :
  u ∈ current_triggered_ids c ↔
  ∃ inc, inc ∈ incidents c ∧ is_triggered inc ∧
         u = "pagerduty_ack_" +:+ py_str (py_get inc "id").
Proof.
  unfold current_triggered_ids.
  rewrite elem_of_list_to_set, list_elem_of_fmap. split.
  - intros (inc & -> & [Ht Hin]%list_elem_of_filter). eauto.
  - intros (inc & Hin & Ht & ->). exists inc. split; [done|].
    by apply list_elem_of_filter.
Qed.



(** The entities the loop removes are the acknowledge-button entities of
    the listing whose [unique_id] is not among the current ones and that are
    listed last under it. *)
Lemma orphaned_entities_spec l c entity :
  entity ∈ orphaned_entities l c ↔
  is_ack_button entity ∧ (unique_id entity.2 ∉ current_triggered_ids c) ∧
  listed_last_under_its_unique_id l entity.
Proof.
  unfold orphaned_entities. rewrite list_elem_of_fmap. split.
  - intros ([u ent] & -> & [Hstale Hin]%list_elem_of_filter). simpl in *.
    apply (proj2 (existing_button_entities_spec l)) in Hin
      as (Hack & <- & Hlast). done.
  - intros (Hack & Hstale & Hlast). exists (unique_id entity.2, entity).
    split; [done|]. apply list_elem_of_filter. split; [done|].
    by apply (proj2 (existing_button_entities_spec l)).
Qed.

(** What the sweep leaves of the registry. *)
Lemma remove_orphaned_entities_filter entity_reg entry_id c :
  remove_orphaned_entities entity_reg entry_id c =
  filter (λ entity, entity.1 ∉
            (orphaned_entities
               (async_entries_for_config_entry entity_reg entry_id) c).*1)
         entity_reg.
Proof.
  unfold remove_orphaned_entities.
  rewrite (sweep_loop_filter
             (λ item, bool_decide (item.1 ∈ current_triggered_ids c))
             (λ item, (item.2).1)).
  apply list_filter_iff. intros entity.
  unfold orphaned_entities. rewrite <- list_fmap_compose.
  assert (∀ l : list (string * (string * RegistryEntry)),
    filter (λ item, bool_decide (item.1 ∈ current_triggered_ids c) = false) l
    = filter (λ item, item.1 ∉ current_triggered_ids c) l) as ->; [|done].
  intros l. apply list_filter_iff. intros item.
  by rewrite bool_decide_eq_false.
Qed.

(** For a stale acknowledge button of the config entry, the sweep removes
    the entity listed last under its [unique_id]. *)
Lemma sweep_removes entity_reg entry_id c entity :
  entity ∈ entity_reg →
  config_entry_id entity.2 = entry_id →
  is_ack_button entity →
  unique_id entity.2 ∉ current_triggered_ids c →
  ∃ last, last ∈ entity_reg ∧ config_entry_id last.2 = entry_id ∧
    unique_id last.2 = unique_id entity.2 ∧
    last ∈ orphaned_entities
             (async_entries_for_config_entry entity_reg entry_id) c.
Proof.
  intros Hin Hcfg Hack Hstale.
  destruct (listed_last_exists
              (async_entries_for_config_entry entity_reg entry_id) entity)
    as (last & Hlast & Hu); [by apply entries_for_config_entry_spec|].
  pose proof (listed_last_elem_of _ _ Hlast)
    as [Hin' Hcfg']%entries_for_config_entry_spec.
  exists last. split_and!; [done|done|done|].
  apply orphaned_entities_spec. split_and!; [|by rewrite Hu|done].
  by rewrite (is_ack_button_same_id _ _ Hu).
Qed.

Lemma sweep_subset entity_reg entry_id c entity :
  entity ∈ remove_orphaned_entities entity_reg entry_id c →
  entity ∈ entity_reg ∧
  entity.1 ∉ (orphaned_entities
                (async_entries_for_config_entry entity_reg entry_id) c).*1.
Proof.
  rewrite remove_orphaned_entities_filter, list_elem_of_filter. tauto.
Qed.


End sweep_facts.


(** * Further properties of the listener *)

Section listener_more.
Context `{DictRepr}.
Variable default_from_email : string.

Local Abbreviation step := (add_button_step default_from_email).
Local Abbreviation loop1 := (add_buttons default_from_email).
Local Abbreviation loop2 := remove_buttons.
Local Abbreviation pass := (async_add_remove_buttons default_from_email).

Lemma add_buttons_app l1 l2 : ∀ ids w,
  loop1 ids (l1 ++ l2) w =
    match loop1 ids l1 w with
    | (Returned ids1, w1) => loop1 ids1 l2 w1
    | (Raised e, w1) => (Raised e, w1)
    end.
Proof.
  induction l1 as [|inc l1 IH]; intros ids w; [done|].
  rewrite <- app_comm_cons, !add_buttons_cons.
  destruct (step ids inc w) as [[ids1|e] w1]; [apply IH|done].
Qed.

(** The second loop always returns when run on the keys of the map. *)
Lemma remove_buttons_on_keys ids w :
  ∃ w', loop2 ids (map_to_list (tracked_buttons w)).*1 w = (Returned (), w') ∧
    (∀ k, k ∈ ids → tracked_buttons w' !! k = tracked_buttons w !! k) ∧
    (∀ k b, tracked_buttons w' !! k = Some b → tracked_buttons w !! k = Some b) ∧
    ∃ removed, log w' = log w ++ (RemoveEntity <$> removed).
Proof.
  destruct (remove_buttons_returns ids (map_to_list (tracked_buttons w)).*1 w)
    as (w' & Hrun & Hgone & Hkept & removed & Hlog & _).
  { apply NoDup_fst_map_to_list. }
  { intros k. by rewrite elem_of_keys. }
  exists w'. split_and!; [done| | |by exists removed].
  - intros k Hk. apply Hkept. by right.
  - intros k b Hb.
    destruct (decide (k ∈ ids)) as [Hin|Hout];
      [by rewrite <- Hkept by (by right)|].
    destruct (decide (k ∈ (map_to_list (tracked_buttons w)).*1)) as [Hk|Hk].
    + rewrite (Hgone k Hk Hout) in Hb. done.
    + by rewrite <- Hkept by (by left).
Qed.

Lemma pass_raised_inv c w e w' :
  pass c w = (Raised e, w') →
  ∃ ids, loop1 ∅ (incidents c) w = (Raised e, w') ∧ ids = (∅ : gset atom).
Proof.
  rewrite pass_unfold.
  destruct (loop1 ∅ (incidents c) w) as [[ids|e1] w1] eqn:Hl1.
  - destruct (remove_buttons_on_keys ids w1) as (w2 & -> & _). done.
  - intros [= -> ->]. by exists ∅.
Qed.

(** Why a step raises. *)
Lemma add_button_step_raised_inv ids inc w e w' :
  step ids inc w = (Raised e, w') →
  is_triggered inc ∧
  ((e = TypeError ∧ ∃ d, py_get inc "id" = VDict d) ∨
   (e = AttributeError ∧
    ∃ k a, py_get inc "id" = VAtom k ∧ tracked_buttons w !! k = None ∧
           py_get_default inc "service" (VDict ∅) = VAtom a)).
Proof.
  unfold add_button_step. destruct (is_triggered inc); unfold_monad; [|done].
  intros Hs. split; [done|].
  destruct (py_get inc "id") as [k|d] eqn:Hid; simpl in Hs.
  - destruct (tracked_buttons w !! k) eqn:Hk; simpl in Hs; [done|].
    unfold new_button, service_summary in Hs.
    destruct (py_get_default inc "service" (VDict ∅)) as [a|d] eqn:Hsvc;
      simpl in Hs; [|done].
    injection Hs as <- <-. right. split; [done|]. by exists k, a.
  - injection Hs as <- <-. left. split; [done|]. by exists d.
Qed.

Lemma add_buttons_raised_inv l : ∀ ids w e w',
  loop1 ids l w = (Raised e, w') →
  ∃ inc, inc ∈ l ∧ is_triggered inc ∧
    ((e = TypeError ∧ ∃ d, py_get inc "id" = VDict d) ∨
     (e = AttributeError ∧
      ∃ k a, py_get inc "id" = VAtom k ∧ tracked_buttons w' !! k = None ∧
             py_get_default inc "service" (VDict ∅) = VAtom a)).
Proof.
  induction l as [|inc rest IH]; intros ids w e w' Hrun; [done|].
  rewrite add_buttons_cons in Hrun.
  destruct (step ids inc w) as [[ids1|e1] w1] eqn:Hstep.
  - apply IH in Hrun as (i & Hi & Hrest). exists i. split; [by right|done].
  - injection Hrun as <- <-.
    pose proof (add_button_step_raised _ _ _ _ _ _ Hstep) as ->.
    apply add_button_step_raised_inv in Hstep as [Ht Hwhy].
    exists inc. split; [by left|done].
Qed.

(** The first loop keeps the invariant, whether it returns or raises. *)
Lemma add_buttons_consistent l : ∀ ids w r w',
  tracked_consistent default_from_email w →
  loop1 ids l w = (r, w') →
  tracked_consistent default_from_email w'.
Proof.
  induction l as [|inc rest IH]; intros ids w r w' Hinv Hrun.
  - by injection Hrun as <- <-.
  - rewrite add_buttons_cons in Hrun.
    destruct (step ids inc w) as [[ids1|e] w1] eqn:Hstep.
    + eapply IH; [|done].
      apply add_button_step_returned in Hstep.
      destruct (is_triggered inc); [|by destruct Hstep as [_ ->]].
      destruct Hstep as (k0 & Hid0 & _ & Hw1).
      destruct (tracked_buttons w !! k0) eqn:Hk0; [by subst|].
      destruct Hw1 as (b0 & Hnew & ->). intros k b. simpl.
      intros [[<- <-]|[_ Hb]]%lookup_insert_Some; [by exists inc|by apply Hinv].
    + injection Hrun as <- <-.
      by apply add_button_step_raised in Hstep as ->.
Qed.

(** X1: the invariant of [tracked_buttons].  If every tracked button was
    built by [__init__] from an incident carrying its key as id, the same
    holds after a pass, returned or raised; so each tracked button stores
    its key as [_incident_id], has the unique id "pagerduty_ack_<key>" and
    carries the configured email. *)
Theorem pass_keeps_buttons_under_their_id c w r w' :
  tracked_consistent default_from_email w →
  async_add_remove_buttons default_from_email c w = (r, w') →
  tracked_consistent default_from_email w' ∧
  ∀ k b, tracked_buttons w' !! k = Some b →
    _incident_id b = VAtom k ∧
    _attr_unique_id b = "pagerduty_ack_" +:+ py_str (VAtom k) ∧
    _default_from_email b = default_from_email.
Proof.
  intros Hinv Hrun.
  assert (tracked_consistent default_from_email w') as Hinv'.
  { rewrite pass_unfold in Hrun.
    destruct (loop1 ∅ (incidents c) w) as [[ids|e] w1] eqn:Hl1.
    - pose proof (add_buttons_consistent _ _ _ _ _ Hinv Hl1) as Hinv1.
      destruct (remove_buttons_on_keys ids w1) as (w2 & Hl2 & _ & Hsub & _).
      rewrite Hl2 in Hrun. injection Hrun as <- <-.
      intros k b Hb. apply Hinv1. by apply Hsub.
    - injection Hrun as <- <-. by eapply add_buttons_consistent. }
  split; [done|]. intros k b (inc & Hnew & Hid)%Hinv'.
  unfold new_button in Hnew.
  destruct (service_summary inc); [|done].
  injection Hnew as <-. simpl. by rewrite Hid.
Qed.

(** X2: a pass raises only because of a malformed triggered entry of the
    snapshot: [TypeError] for an id that is an object, [AttributeError] for
    a [service] that is not an object on an entry whose id is not yet
    tracked.  It never raises [KeyError]. *)
Theorem pass_raises_only_on_malformed_entry c w e w' :
  async_add_remove_buttons default_from_email c w = (Raised e, w') →
  ∃ inc, inc ∈ incidents c ∧ is_triggered inc ∧
    ((e = TypeError ∧ ∃ d, py_get inc "id" = VDict d) ∨
     (e = AttributeError ∧
      ∃ k a, py_get inc "id" = VAtom k ∧ tracked_buttons w' !! k = None ∧
             py_get_default inc "service" (VDict ∅) = VAtom a)).
Proof.
  intros (ids & Hl1 & _)%pass_raised_inv.
  by apply add_buttons_raised_inv in Hl1.
Qed.

(** The first loop, whatever its outcome, only logs [AddEntities], one for
    each button that was not tracked before. *)
Lemma add_buttons_only_adds l : ∀ ids w r w',
  loop1 ids l w = (r, w') →
  ∃ added, log w' = log w ++ (AddEntities <$> added) ∧
    ∀ b, b ∈ added ↔
         ∃ k, tracked_buttons w !! k = None ∧ tracked_buttons w' !! k = Some b.
Proof.
  induction l as [|inc rest IH]; intros ids w r w' Hrun.
  - injection Hrun as <- <-. exists []. split; [by rewrite app_nil_r|].
    intros b. split; [by intros ?%elem_of_nil|].
    intros (k & Hn & Hs). congruence.
  - rewrite add_buttons_cons in Hrun.
    destruct (step ids inc w) as [[ids1|e] w1] eqn:Hstep.
    + pose proof (add_buttons_frame _ _ _ _ _ _ Hrun) as Hframe.
      apply IH in Hrun as (added & Hlog & Hadded).
      apply add_button_step_returned in Hstep.
      destruct (is_triggered inc); [|destruct Hstep as [_ ->]; eauto].
      destruct Hstep as (k0 & _ & _ & Hw1).
      destruct (tracked_buttons w !! k0) as [b0|] eqn:Hlk; [subst; eauto|].
      destruct Hw1 as (b0 & _ & ->). simpl in *.
      exists (b0 :: added). split.
      { rewrite Hlog. simpl. by rewrite <- app_assoc. }
      intros b. rewrite elem_of_cons, Hadded. split.
      * intros [->|(k & Hn & Hs)].
        -- exists k0. split; [done|]. apply Hframe. by rewrite lookup_insert_eq.
        -- exists k. split; [|done].
           destruct (decide (k0 = k)) as [->|Hne].
           ++ by rewrite lookup_insert_eq in Hn.
           ++ by rewrite lookup_insert_ne in Hn.
      * intros (k & Hn & Hs). destruct (decide (k0 = k)) as [->|Hne].
        -- left. specialize (Hframe k b0). rewrite lookup_insert_eq in Hframe.
           specialize (Hframe eq_refl). congruence.
        -- right. exists k. by rewrite lookup_insert_ne.
    + injection Hrun as <- <-.
      apply add_button_step_raised in Hstep as ->.
      exists []. split; [by rewrite app_nil_r|].
      intros b. split; [by intros ?%elem_of_nil|].
      intros (k & Hn & Hs). congruence.
Qed.

(** X3: a pass that raises has removed nothing.  Every button tracked before
    is still tracked, unchanged, and the log has grown by [AddEntities]
    events only, one for each button added before the exception. *)
Theorem aborted_pass_removes_nothing c w e w' :
  async_add_remove_buttons default_from_email c w = (Raised e, w') →
  (∀ k b, tracked_buttons w !! k = Some b → tracked_buttons w' !! k = Some b) ∧
  ∃ added, log w' = log w ++ (AddEntities <$> added) ∧
    ∀ b, b ∈ added ↔
         ∃ k, tracked_buttons w !! k = None ∧ tracked_buttons w' !! k = Some b.
Proof.
  intros (ids & Hl1 & _)%pass_raised_inv. split.
  - by eapply add_buttons_frame.
  - by eapply add_buttons_only_adds.
Qed.

(** X4: when several triggered entries of the snapshot share an id that is
    not tracked yet, the button is built from the first of them; the later
    ones are ignored. *)
Theorem button_built_from_first_triggered_entry c w w' pre inc post k :
  incidents c = pre ++ inc :: post →
  (∀ i, i ∈ pre → is_triggered i → py_get i "id" ≠ VAtom k) →
  is_triggered inc →
  py_get inc "id" = VAtom k →
  tracked_buttons w !! k = None →
  async_add_remove_buttons default_from_email c w = (Returned (), w') →
  ∃ b, new_button inc default_from_email = Returned b ∧
       tracked_buttons w' !! k = Some b.
Proof.
  intros Hsplit Hpre Ht Hid Hnew Hrun.
  rewrite pass_unfold, Hsplit, add_buttons_app in Hrun.
  destruct (loop1 ∅ pre w) as [[ids0|e0] w0] eqn:Hpre_run; [|done].
  assert (tracked_buttons w0 !! k = None) as Hk0.
  { apply add_buttons_returned in Hpre_run as (_ & Hdom & _).
    apply eq_None_not_Some. rewrite Hdom. intros [[? ?]|(i & Hi & Hti & Hidi)].
    - congruence.
    - by apply (Hpre i). }
  rewrite add_buttons_cons in Hrun.
  destruct (step ids0 inc w0) as [[ids1|e1] w1] eqn:Hstep; [|done].
  apply add_button_step_returned in Hstep.
  destruct (is_triggered inc); [|done].
  destruct Hstep as (k' & Hid' & -> & Hw1).
  assert (k' = k) as -> by congruence.
  rewrite Hk0 in Hw1. destruct Hw1 as (b & Hb & ->).
  exists b. split; [done|].
  destruct (loop1 (ids0 ∪ {[k]}) post _) as [[ids2|e2] w2] eqn:Hpost; [|done].
  pose proof (add_buttons_frame _ _ _ _ _ _ Hpost k b) as Hframe.
  simpl in Hframe. rewrite lookup_insert_eq in Hframe.
  specialize (Hframe eq_refl).
  apply add_buttons_returned in Hpost as (Hids & _).
  destruct (remove_buttons_on_keys ids2 w2) as (w3 & Hl2 & Hkept & _).
  rewrite Hl2 in Hrun. injection Hrun as <-.
  rewrite Hkept; [done|]. apply Hids. left.
  apply elem_of_union. right. by apply elem_of_singleton.
Qed.

(** The first loop adds each key at most once. *)
Lemma add_buttons_added_once l : ∀ ids w r w',
  loop1 ids l w = (r, w') →
  ∃ added : list (atom * PagerDutyAcknowledgeButton),
    log w' = log w ++ (AddEntities <$> added.*2) ∧
    NoDup added.*1 ∧
    ∀ k b, (k, b) ∈ added ↔
           tracked_buttons w !! k = None ∧ tracked_buttons w' !! k = Some b.
Proof.
  induction l as [|inc rest IH]; intros ids w r w' Hrun.
  - injection Hrun as <- <-. exists []. split_and!.
    + by rewrite app_nil_r.
    + constructor.
    + intros k b. split; [by intros ?%elem_of_nil|]. intros [? ?]. congruence.
  - rewrite add_buttons_cons in Hrun.
    destruct (step ids inc w) as [[ids1|e] w1] eqn:Hstep.
    + pose proof (add_buttons_frame _ _ _ _ _ _ Hrun) as Hframe.
      apply IH in Hrun as (added & Hlog & Hnd & Hadded).
      apply add_button_step_returned in Hstep.
      destruct (is_triggered inc);
        [|destruct Hstep as [_ ->]; by exists added].
      destruct Hstep as (k0 & _ & _ & Hw1).
      destruct (tracked_buttons w !! k0) as [b0|] eqn:Hlk;
        [subst; by exists added|].
      destruct Hw1 as (b0 & _ & ->). simpl in *.
      exists ((k0, b0) :: added). split_and!.
      * rewrite Hlog. simpl. by rewrite <- app_assoc.
      * simpl. apply NoDup_cons. split; [|done].
        intros ([k b] & -> & Hkb%Hadded)%list_elem_of_fmap. simpl in Hkb.
        destruct Hkb as [Hn _]. by rewrite lookup_insert_eq in Hn.
      * intros k b. rewrite elem_of_cons, Hadded. split.
        -- intros [[= -> ->]|[Hn Hs]].
           ++ split; [done|]. apply Hframe. by rewrite lookup_insert_eq.
           ++ split; [|done]. destruct (decide (k0 = k)) as [->|Hne].
              ** by rewrite lookup_insert_eq in Hn.
              ** by rewrite lookup_insert_ne in Hn.
        -- intros [Hn Hs]. destruct (decide (k0 = k)) as [->|Hne].
           ++ left. specialize (Hframe k b0).
              rewrite lookup_insert_eq in Hframe.
              specialize (Hframe eq_refl). congruence.
           ++ right. by rewrite lookup_insert_ne.
    + injection Hrun as <- <-.
      apply add_button_step_raised in Hstep as ->.
      exists []. split_and!.
      * by rewrite app_nil_r.
      * constructor.
      * intros k b. split; [by intros ?%elem_of_nil|]. intros [? ?]. congruence.
Qed.

(** The second loop pops each key at most once. *)
Lemma remove_buttons_removed_once ids ks : ∀ w,
  NoDup ks →
  (∀ k, k ∈ ks → is_Some (tracked_buttons w !! k)) →
  ∃ w' (removed : list (atom * PagerDutyAcknowledgeButton)),
    loop2 ids ks w = (Returned (), w') ∧
    log w' = log w ++ (RemoveEntity <$> removed.*2) ∧
    NoDup removed.*1 ∧
    ∀ k b, (k, b) ∈ removed ↔
           k ∈ ks ∧ (k ∉ ids) ∧ tracked_buttons w !! k = Some b.
Proof.
  induction ks as [|k0 rest IH]; intros w Hnd Hks.
  - exists w, []. split_and!; [done|by rewrite app_nil_r|constructor|].
    intros k b. split; [by intros ?%elem_of_nil|].
    by intros (?%elem_of_nil & _).
  - apply NoDup_cons in Hnd as [Hk0 Hnd].
    rewrite remove_buttons_cons. unfold remove_button_step.
    case_bool_decide as Hin.
    + unfold_monad.
      destruct (IH w Hnd) as (w' & removed & -> & Hlog & Hnd' & Hrem).
      { intros k Hk. apply Hks. by right. }
      exists w', removed. split_and!; [done|done|done|].
      intros k b. rewrite Hrem. split.
      * intros (Hk & Hout & Hb). split; [by right|done].
      * intros ([->|Hk]%elem_of_cons & Hout & Hb); [done|eauto].
    + destruct (Hks k0) as [b0 Hb0]; [by left|].
      unfold_monad. simpl. rewrite Hb0. simpl.
      set (w1 := {| tracked_buttons := delete k0 (tracked_buttons w);
                    log := log w ++ [RemoveEntity b0] |}).
      destruct (IH w1 Hnd) as (w' & removed & -> & Hlog & Hnd' & Hrem).
      { intros k Hk. simpl. rewrite lookup_delete_ne; [|by intros ->].
        apply Hks. by right. }
      simpl in *.
      exists w', ((k0, b0) :: removed). split_and!; [done| | |].
      * rewrite Hlog. simpl. by rewrite <- app_assoc.
      * simpl. apply NoDup_cons. split; [|done].
        intros ([k b] & -> & (Hk & _)%Hrem)%list_elem_of_fmap. done.
      * intros k b. rewrite elem_of_cons, Hrem. split.
        -- intros [[= -> ->]|(Hk & Hout & Hb)].
           ++ split; [by left|done].
           ++ split; [by right|]. split; [done|].
              rewrite lookup_delete_ne in Hb; [done|by intros ->].
        -- intros ([->|Hk]%elem_of_cons & Hout & Hb).
           ++ left. congruence.
           ++ right. split; [done|]. split; [done|].
              rewrite lookup_delete_ne; [done|by intros ->].
Qed.

(** X5: in one pass no id gets two buttons and no id is popped twice, even
    when the snapshot repeats ids.  The new events are one [AddEntities]
    for each key that appears and one [RemoveEntity] for each key that
    disappears, in that order. *)
Theorem pass_one_event_per_key c w w' :
  async_add_remove_buttons default_from_email c w = (Returned (), w') →
  ∃ created destroyed : list (atom * PagerDutyAcknowledgeButton),
    log w' = log w ++ (AddEntities <$> created.*2)
                   ++ (RemoveEntity <$> destroyed.*2) ∧
    NoDup created.*1 ∧ NoDup destroyed.*1 ∧
    (∀ k b, (k, b) ∈ created ↔
            tracked_buttons w !! k = None ∧ tracked_buttons w' !! k = Some b) ∧
    (∀ k b, (k, b) ∈ destroyed ↔
            tracked_buttons w !! k = Some b ∧ tracked_buttons w' !! k = None).
Proof.
  intros Hrun. pose proof Hrun as (Hkeys & Hkeep & _)%pass_returned.
  rewrite pass_unfold in Hrun.
  destruct (loop1 ∅ (incidents c) w) as [[ids|e] w1] eqn:Hl1; [|done].
  pose proof (add_buttons_frame _ _ _ _ _ _ Hl1) as Hframe.
  pose proof (add_buttons_added_once _ _ _ _ _ Hl1)
    as (created & Hlog1 & Hnd1 & Hcr).
  apply add_buttons_returned in Hl1 as (Hids & Hdom & _).
  assert (∀ k, k ∈ ids ↔ triggered_key (incidents c) k) as Hids'.
  { intros k. rewrite Hids. split; [|by right].
    by intros [?%not_elem_of_empty|?]. }
  destruct (remove_buttons_removed_once ids
              (map_to_list (tracked_buttons w1)).*1 w1)
    as (w2 & destroyed & Hl2 & Hlog2 & Hnd2 & Hde).
  { apply NoDup_fst_map_to_list. }
  { intros k. by rewrite elem_of_keys. }
  destruct (remove_buttons_on_keys ids w1) as (w2' & Hl2' & Hkept & Hsub & _).
  rewrite Hl2 in Hl2'. injection Hl2' as <-.
  rewrite Hl2 in Hrun. injection Hrun as <-.
  exists created, destroyed. split_and!; [|done|done| |].
  - by rewrite Hlog2, Hlog1, <- app_assoc.
  - intros k b. rewrite Hcr. split; intros [Hn Hs]; (split; [done|]).
    + rewrite Hkept; [done|]. apply Hids'.
      assert (is_Some (tracked_buttons w1 !! k)) as Hs' by eauto.
      apply Hdom in Hs' as [[? ?]|?]; [congruence|done].
    + by apply Hsub.
  - intros k b. rewrite Hde. split.
    + intros (Hk & Hout & Hb). split.
      * apply elem_of_keys, Hdom in Hk as [[b' Hb']|Hk];
          [|by apply Hids' in Hk].
        apply Hframe in Hb' as Hb''. congruence.
      * apply eq_None_not_Some. rewrite Hkeys. by rewrite <- Hids'.
    + intros [Hb Hn].
      assert (k ∉ ids) as Hout.
      { intros Hin. apply Hids', Hkeys in Hin as [? ?]. congruence. }
      split_and!; [|done|by apply Hframe].
      apply elem_of_keys. apply Hframe in Hb. eauto.
Qed.

(** X6: availability and tracking after a pass that returned.  A button
    that reports itself available has its id tracked.  Conversely, when no
    two entries of the snapshot share an id, every tracked button filed
    under its own id reports itself available. *)
Theorem tracked_and_available_agree c w w' :
  async_add_remove_buttons default_from_email c w = (Returned (), w') →
  (∀ b k, _incident_id b = VAtom k → available b c = true →
          is_Some (tracked_buttons w' !! k)) ∧
  (NoDup ((λ inc, py_get inc "id") <$> incidents c) →
   ∀ k b, tracked_buttons w' !! k = Some b → _incident_id b = VAtom k →
          available b c = true).
Proof.
  intros (Hkeys & _)%pass_returned. split.
  - intros b k Hid (inc & Hin & Hinc & Hst)%available_in_true.
    apply Hkeys. exists inc. split; [done|]. split; [|congruence].
    unfold is_triggered. rewrite Hst. by apply bool_decide_pack.
  - intros Hnd k b Hb Hid.
    assert (triggered_key (incidents c) k) as (inc & Hin & Ht & Hinc)
      by (apply Hkeys; eauto).
    apply list_elem_of_split in Hin as (pre & post & Hsplit).
    unfold available. rewrite Hsplit in Hnd |- *.
    rewrite available_in_first_match.
    + unfold is_triggered in Ht. by apply Is_true_true.
    + intros i Hi Heq. rewrite fmap_app, fmap_cons in Hnd.
      apply NoDup_app in Hnd as (_ & Hdisj & _).
      apply (Hdisj (py_get i "id")).
      * apply list_elem_of_fmap. eauto.
      * rewrite Heq, Hid, <- Hinc. by left.
    + congruence.
Qed.

(** X7: a snapshot without incidents, or a payload without the key
    "incidents", empties [tracked_buttons]: the pass returns, no key is
    left, and a removal is scheduled for every button that was tracked. *)
Theorem pass_without_incidents_clears c w :
  incidents c = [] →
  ∃ w' destroyed,
    async_add_remove_buttons default_from_email c w = (Returned (), w') ∧
    tracked_buttons w' = ∅ ∧
    log w' = log w ++ (RemoveEntity <$> destroyed) ∧
    ∀ b, b ∈ destroyed ↔ ∃ k, tracked_buttons w !! k = Some b.
Proof.
  intros Hempty.
  destruct (pass_completes default_from_email c w) as [w' Hrun].
  { rewrite Hempty. by intros inc ?%elem_of_nil. }
  pose proof Hrun
    as (Hkeys & _ & created & destroyed & Hlog & Hcr & Hde)%pass_returned.
  assert (tracked_buttons w' = ∅) as Hnone.
  { apply map_empty. intros k. apply eq_None_not_Some. rewrite Hkeys, Hempty.
    apply triggered_key_nil. }
  assert (created = []) as ->.
  { destruct created as [|b ?]; [done|].
    destruct (proj1 (Hcr b)) as (k & _ & Hb); [by left|].
    by rewrite Hnone in Hb. }
  exists w', destroyed. split_and!; [done|done|done|].
  intros b. rewrite Hde. split; intros (k & Hb); exists k; [tauto|].
  split; [done|]. by rewrite Hnone.
Qed.
End listener_more.

(** * Further properties of the set-up and of the button *)

Section setup_more.
Context `{DictRepr}.

(** A first loop that returned has met only hashable ids. *)
Lemma add_buttons_returned_hashable default_from_email l : ∀ ids w ids' w',
  add_buttons default_from_email ids l w = (Returned ids', w') →
  ∀ inc, inc ∈ l → is_triggered inc → ∃ k, py_get inc "id" = VAtom k.
Proof.
  induction l as [|i rest IH]; intros ids w ids' w' Hrun inc Hin Ht;
    [by apply elem_of_nil in Hin|].
  rewrite add_buttons_cons in Hrun.
  destruct (add_button_step default_from_email ids i w)
    as [[ids1|e] w1] eqn:Hstep; [|done].
  apply elem_of_cons in Hin as [->|Hin]; [|by eapply IH].
  apply add_button_step_returned in Hstep.
  destruct (is_triggered i); [|done].
  destruct Hstep as (k & Hk & _). eauto.
Qed.

Lemma empty_world_consistent default_from_email :
  tracked_consistent default_from_email empty_world.
Proof. intros k b Hb. simpl in Hb. by rewrite lookup_empty in Hb. Qed.

(** A button tracked after a pass that started from consistent buttons has
    the unique id of the key it is filed under. *)
Lemma pass_tracked_unique_id default_from_email c w r w' k b :
  tracked_consistent default_from_email w →
  async_add_remove_buttons default_from_email c w = (r, w') →
  tracked_buttons w' !! k = Some b →
  _attr_unique_id b = "pagerduty_ack_" +:+ py_str (VAtom k).
Proof.
  intros Hinv Hrun Hb.
  assert (tracked_consistent default_from_email w') as Hinv'.
  { rewrite pass_unfold in Hrun.
    destruct (add_buttons default_from_email ∅ (incidents c) w)
      as [[ids|e] w1] eqn:Hl1.
    - pose proof (add_buttons_consistent _ _ _ _ _ _ Hinv Hl1) as Hinv1.
      destruct (remove_buttons_on_keys ids w1) as (w2 & Hl2 & _ & Hsub & _).
      rewrite Hl2 in Hrun. injection Hrun as <- <-.
      intros k' b' Hb'. apply Hinv1. by apply Hsub.
    - injection Hrun as <- <-. by eapply add_buttons_consistent. }
  destruct (Hinv' k b Hb) as (inc & Hnew & Hid).
  unfold new_button in Hnew. destruct (service_summary inc); [|done].
  injection Hnew as <-. simpl. by rewrite Hid.
Qed.

(** X8: what [async_setup_entry] leaves behind when its initial pass
    returns.  The buttons tracked are exactly those of the triggered ids, all
    freshly announced and none removed; and every acknowledge-button entry
    of the config entry that is still in the registry, if no other entry
    shares its [unique_id], is matched by a tracked button with that
    [unique_id]. *)
Theorem setup_leaves_no_orphan entity_reg entry_id default_from_email c swept w' :
  async_setup_entry entity_reg entry_id default_from_email c
    = (swept, (Returned (), w')) →
  (∀ k, is_Some (tracked_buttons w' !! k) ↔ triggered_key (incidents c) k) ∧
  (∃ created, log w' = AddEntities <$> created ∧
     ∀ b, b ∈ created ↔ ∃ k, tracked_buttons w' !! k = Some b) ∧
  (∀ eid e, (eid, e) ∈ swept → config_entry_id e = entry_id →
     String.prefix "pagerduty_ack_" (unique_id e) = true →
     (∀ eid' e', (eid', e') ∈ entity_reg → config_entry_id e' = entry_id →
                 unique_id e' = unique_id e → eid' = eid) →
     ∃ k b, tracked_buttons w' !! k = Some b ∧
            _attr_unique_id b = unique_id e).
Proof.
  unfold async_setup_entry. intros [= <- Hrun].
  pose proof Hrun
    as (Hkeys & _ & created & destroyed & Hlog & Hcr & Hde)%pass_returned.
  simpl in Hlog, Hcr, Hde.
  split_and!; [done| |].
  - assert (destroyed = []) as ->.
    { destruct destroyed as [|b ?]; [done|].
      destruct (proj1 (Hde b)) as (k & Hb & _); [by left|].
      by rewrite lookup_empty in Hb. }
    simpl in Hlog. rewrite app_nil_r in Hlog.
    exists created. split; [done|]. intros b. rewrite Hcr.
    split; intros (k & Hb); exists k; [tauto|].
    split; [apply lookup_empty|done].
  - intros eid e Hs Hcfg Hpre Huniq.
    pose proof (sweep_subset _ _ _ _ Hs) as [He Hkept].
    assert (is_ack_button (eid, e)) as Hack.
    { rewrite is_ack_button_prefix. simpl. by rewrite Hpre. }
    destruct (decide (unique_id e ∈ current_triggered_ids c)) as [Hcur|Hstale].
    + apply current_triggered_ids_spec in Hcur as (inc & Hin & Ht & Hu).
      assert (∃ k, py_get inc "id" = VAtom k) as [k Hk].
      { rewrite pass_unfold in Hrun.
        destruct (add_buttons default_from_email ∅ (incidents c) _)
          as [[ids|e0] w1] eqn:Hl1; [|done].
        by eapply add_buttons_returned_hashable. }
      destruct (proj2 (Hkeys k)) as [b Hb]; [by exists inc|].
      exists k, b. split; [done|].
      rewrite (pass_tracked_unique_id default_from_email c _ _ _ _ _
                 (empty_world_consistent default_from_email) Hrun Hb).
      by rewrite Hu, Hk.
    + destruct (sweep_removes _ _ _ (eid, e) He Hcfg Hack Hstale)
        as ([eid' e'] & He' & Hcfg' & Hu & Hgone).
      simpl in *. destruct Hkept.
      rewrite <- (Huniq eid' e' He' Hcfg' Hu).
      apply list_elem_of_fmap. by exists (eid', e').
Qed.

(** X9: when the entries of the config entry have pairwise distinct
    [unique_id]s, sweeping twice against the same snapshot is the same as
    sweeping once. *)
Theorem sweep_idempotent entity_reg entry_id c :
  (∀ eid1 e1 eid2 e2,
     (eid1, e1) ∈ entity_reg → (eid2, e2) ∈ entity_reg →
     config_entry_id e1 = entry_id → config_entry_id e2 = entry_id →
     unique_id e1 = unique_id e2 → eid1 = eid2) →
  remove_orphaned_entities
    (remove_orphaned_entities entity_reg entry_id c) entry_id c
  = remove_orphaned_entities entity_reg entry_id c.
Proof.
  intros Huniq.
  rewrite (remove_orphaned_entities_filter
             (remove_orphaned_entities entity_reg entry_id c)).
  apply list_filter_all. intros entity.
  intros ([eid e] & _ & Hagain)%list_elem_of_fmap.
  apply orphaned_entities_spec in Hagain as (Hack & Hstale & Hlast).
  pose proof (listed_last_elem_of _ _ Hlast)
    as [Honce Hcfg]%entries_for_config_entry_spec.
  apply sweep_subset in Honce as [He Hkept].
  destruct (sweep_removes _ _ _ (eid, e) He Hcfg Hack Hstale)
    as ([eid' e'] & He' & Hcfg' & Hu & Hgone).
  simpl in *. apply Hkept.
  rewrite <- (Huniq eid' e' eid e He' He Hcfg' Hcfg Hu).
  apply list_elem_of_fmap. by exists (eid', e').
Qed.

(** X10: the attributes a freshly built button shows are the fields of its
    incident.  The title is "Unknown" only when the key is absent; a title
    that is present, even null, is shown as it is.  The service name is the
    summary of the service object, "Unknown" when the service or its summary
    is absent.  There are exactly four attributes. *)
Theorem new_button_shows_incident_fields inc default_from_email b :
  new_button inc default_from_email = Returned b →
  extra_state_attributes b !! "incident_id" = Some (py_get inc "id") ∧
  extra_state_attributes b !! "incident_number"
    = Some (py_get inc "incident_number") ∧
  extra_state_attributes b !! "incident_title"
    = Some (default (VStr "Unknown") (inc !! "title")) ∧
  (inc !! "service" = None →
   extra_state_attributes b !! "service_name" = Some (VStr "Unknown")) ∧
  (∀ service, inc !! "service" = Some (VDict service) →
   extra_state_attributes b !! "service_name"
     = Some (VAtom (default (AStr "Unknown") (service !! "summary")))) ∧
  dom (extra_state_attributes b)
    = ({["incident_id"; "incident_number"; "incident_title"; "service_name"]}
       : gset string).
Proof.
  unfold new_button, service_summary, py_get_default.
  destruct (inc !! "service") as [[a|service]|] eqn:Hsvc; simpl; [done| |];
    intros [= <-]; unfold extra_state_attributes; simpl.
  - split_and!; try done. by intros service' [= ->].
  - split_and!; done.
Qed.

(** X11: buttons of incidents with string ids have equal unique ids, and
    acknowledge at equal URLs, exactly when the ids are equal. *)
Theorem string_ids_give_distinct_unique_ids inc1 inc2 email1 email2 b1 b2 s1 s2 :
  new_button inc1 email1 = Returned b1 →
  new_button inc2 email2 = Returned b2 →
  py_get inc1 "id" = VStr s1 →
  py_get inc2 "id" = VStr s2 →
  (_attr_unique_id b1 = _attr_unique_id b2 ↔ s1 = s2) ∧
  (req_url (acknowledge_request b1) = req_url (acknowledge_request b2)
   ↔ s1 = s2).
Proof.
  unfold new_button. intros Hb1 Hb2 Hs1 Hs2.
  destruct (service_summary inc1); [|done].
  destruct (service_summary inc2); [|done].
  injection Hb1 as <-. injection Hb2 as <-. simpl. rewrite Hs1, Hs2. simpl.
  split; (split; [apply append_inj_l|by intros ->]).
Qed.
End setup_more.

(** * Properties of the config flow *)

Lemma drop_occurrences_skip pat q : ∀ t,
  drop_occurrences pat (String.length q) (q +:+ t) = drop_occurrences pat 0 t.
Proof.
  induction q as [|a q IH]; intros t; [done|].
  rewrite append_cons. simpl. apply IH.
Qed.

Lemma prefix_refl_app pat t : String.prefix pat (pat +:+ t) = true.
Proof. apply prefix_spec. by exists t. Qed.

(** An occurrence at the head is dropped. *)
Lemma drop_occurrences_head c p t :
  drop_occurrences (String c p) 0 (String c p +:+ t)
  = drop_occurrences (String c p) 0 t.
Proof.
  rewrite append_cons.
  change (drop_occurrences (String c p) 0 (String c (p +:+ t)))
    with (if String.prefix (String c p) (String c (p +:+ t))
          then drop_occurrences (String c p)
                 (String.length (String c p) - 1) (p +:+ t)
          else String c (drop_occurrences (String c p) 0 (p +:+ t))).
  rewrite <- append_cons, prefix_refl_app.
  replace (String.length (String c p) - 1) with (String.length p)
    by (simpl; lia).
  apply drop_occurrences_skip.
Qed.

(** Characters other than the first of the pattern are copied. *)
Lemma drop_occurrences_other c p a t :
  a ≠ c →
  drop_occurrences (String c p) 0 (String a t)
  = String a (drop_occurrences (String c p) 0 t).
Proof.
  intros Hne. simpl. destruct t; simpl;
    destruct (Ascii.ascii_dec c a); congruence.
Qed.

Lemma drop_occurrences_after c p s : ∀ t,
  contains_char c s = false →
  drop_occurrences (String c p) 0 (s +:+ t)
  = s +:+ drop_occurrences (String c p) 0 t.
Proof.
  induction s as [|a s IH]; intros t Hs; [done|].
  simpl in Hs. destruct (Ascii.eqb a c) eqn:Hac; [done|].
  apply Ascii.eqb_neq in Hac.
  rewrite !append_cons, drop_occurrences_other by done.
  by rewrite IH.
Qed.

Lemma append_empty_r s : s +:+ "" = s.
Proof. induction s as [|a s IH]; [done|]. by rewrite append_cons, IH. Qed.

Section config_more.
Context {json : Type}.
Variable CONF_API_KEY : string.
Variable REQUIRED_ROLES : list string.

Local Abbreviation cfg := (@cfgval json).
Local Abbreviation test_key := (@_test_api_key_and_fetch_user_data json).
Local Abbreviation user_step := (@async_step_user json CONF_API_KEY).
Local Abbreviation validate := (_validate_user_roles REQUIRED_ROLES).

(** The three shapes of the result of the key test. *)
Lemma test_key_result (api : PagerDutyApi) (api_key : cfg) url :
  (∃ user requests, _test_api_key_and_fetch_user_data api api_key url
     = (Returned (true, <["user" := CJson user]> ∅), requests)) ∨
  (∃ requests, _test_api_key_and_fetch_user_data api api_key url
     = (Returned (false, ∅), requests)) ∨
  (∃ name requests, _test_api_key_and_fetch_user_data api api_key url
     = (Raised (RemoteError name), requests)).
Proof.
  unfold _test_api_key_and_fetch_user_data.
  destruct (RestApiV2Client api api_key) as [name0|]; [eauto 6|].
  destruct (rget api _) as [abilities| |name1];
    [destruct (rget api _) as [user| |name2]|..]; eauto 6.
Qed.

Lemma test_key_requests (api : PagerDutyApi) (api_key : cfg) url q :
  q ∈ (_test_api_key_and_fetch_user_data api api_key url).2 →
  api_key_used q = api_key ∧ api_url q = url.
Proof.
  unfold _test_api_key_and_fetch_user_data.
  destruct (RestApiV2Client api api_key) as [name0|];
    [by intros ?%elem_of_nil|].
  destruct (rget api _) as [abilities| |name1];
    [destruct (rget api _) as [user| |name2]|..]; simpl; intros Hq;
    repeat (apply elem_of_cons in Hq as [->|Hq]); try done;
    by apply elem_of_nil in Hq.
Qed.

(** X12: the API key is accepted exactly when the constructor of the
    session returns and both requests are answered, and then the data is the
    user payload under "user".  A [pagerduty.Error] on either request gives
    [(False, {})]; the user request is not sent after a failed abilities
    request; any other exception of a request propagates.  The session is
    built outside the [try]: when the constructor raises, the exception
    propagates and no request is sent.  Every request carries the key and
    the URL that were passed in. *)
Theorem api_key_accepted_iff_both_answered (api : PagerDutyApi)
    (api_key : cfg) (url : string) :
  let abilities_request :=
    {| api_key_used := api_key; api_url := url;
       api_path := "/abilities"; api_params := ∅ |} in
  let user_request :=
    {| api_key_used := api_key; api_url := url;
       api_path := "/users/me";
       api_params := <["include[]" := "teams"]> ∅ |} in
  let tested := _test_api_key_and_fetch_user_data api api_key url in
  (∀ data, tested.1 = Returned (true, data) ↔
     RestApiV2Client api api_key = None ∧
     ∃ abilities user, rget api abilities_request = Answer abilities ∧
       rget api user_request = Answer user ∧
       data = <["user" := CJson user]> ∅) ∧
  (∀ data, tested.1 = Returned (false, data) ↔
     data = ∅ ∧ RestApiV2Client api api_key = None ∧
     (rget api abilities_request = PagerDutyError ∨
      (∃ abilities, rget api abilities_request = Answer abilities) ∧
      rget api user_request = PagerDutyError)) ∧
  (∀ e, tested.1 = Raised e ↔
     ∃ name, e = RemoteError name ∧
       (RestApiV2Client api api_key = Some name ∨
        RestApiV2Client api api_key = None ∧
        (rget api abilities_request = OtherException name ∨
         (∃ abilities, rget api abilities_request = Answer abilities) ∧
         rget api user_request = OtherException name))) ∧
  (∀ name, RestApiV2Client api api_key = Some name →
     tested = (Raised (RemoteError name), [])) ∧
  (RestApiV2Client api api_key = None →
   (∀ abilities, rget api abilities_request ≠ Answer abilities) →
   tested.2 = [abilities_request]) ∧
  (∀ q, q ∈ tested.2 → api_key_used q = api_key ∧ api_url q = url).
Proof.
  intros abilities_request user_request tested.
  unfold tested, _test_api_key_and_fetch_user_data.
  fold abilities_request user_request.
  destruct (RestApiV2Client api api_key) as [name0|].
  { simpl. split_and!.
    - intros data. split; [done|]. by intros [? _].
    - intros data. split; [done|]. by intros (_ & ? & _).
    - intros e. split; [intros [= <-]; eauto|].
      by intros (? & -> & [[= ->]|[? _]]).
    - by intros name [= ->].
    - done.
    - by intros q ?%elem_of_nil. }
  split_and!.
  - intros data.
    destruct (rget api abilities_request) as [abilities| |name1];
      [destruct (rget api user_request) as [user| |name2]|..]; simpl.
    + split; [intros [= <-]; eauto 10|].
      by intros (_ & ? & ? & _ & [= <-] & ->).
    + split; [done|]. by intros (_ & ? & ? & _ & ? & _).
    + split; [done|]. by intros (_ & ? & ? & _ & ? & _).
    + split; [done|]. by intros (_ & ? & ? & ? & _).
    + split; [done|]. by intros (_ & ? & ? & ? & _).
  - intros data.
    destruct (rget api abilities_request) as [abilities| |name1];
      [destruct (rget api user_request) as [user| |name2]|..]; simpl.
    + split; [done|]. by intros (_ & _ & [?|[_ ?]]).
    + split; [intros [= <-]; eauto 10|]. by intros [-> _].
    + split; [done|]. by intros (_ & _ & [?|[_ ?]]).
    + split; [intros [= <-]; eauto 10|]. by intros [-> _].
    + split; [done|]. by intros (_ & _ & [?|[[? ?] _]]).
  - intros e.
    destruct (rget api abilities_request) as [abilities| |name1];
      [destruct (rget api user_request) as [user| |name2]|..]; simpl.
    + split; [done|]. by intros (? & _ & [?|[_ [?|[_ ?]]]]).
    + split; [done|]. by intros (? & _ & [?|[_ [?|[_ ?]]]]).
    + split; [intros [= <-]; eauto 10|].
      by intros (? & -> & [?|[_ [?|[_ [= ->]]]]]).
    + split; [done|]. by intros (? & _ & [?|[_ [?|[[? ?] _]]]]).
    + split; [intros [= <-]; eauto 10|].
      by intros (? & -> & [?|[_ [[= ->]|[[? ?] _]]]]).
  - by intros name.
  - intros _ Hnone.
    destruct (rget api abilities_request) as [abilities| |name1] eqn:Hab;
      [|done..].
    by destruct (Hnone abilities).
  - intros q Hq.
    destruct (rget api abilities_request) as [abilities| |name1];
      [destruct (rget api user_request) as [user| |name2]|..]; simpl in Hq;
      repeat (apply elem_of_cons in Hq as [->|Hq]); try done;
      by apply elem_of_nil in Hq.
Qed.

(** X13: with an API key in the input, the user step creates an entry
    exactly when the key is accepted.  The entry is titled "PagerDuty"; its
    data is the input, with the user payload under "user" and the chosen URL
    under "api_base_url" written over whatever the input had there, and
    every other key as submitted.  A rejected key shows the form again with
    the error [invalid_api_key_or_roles]; an exception of the test
    propagates; the requests sent are those of the test. *)
Theorem user_step_creates_entry_iff_key_accepted
    (api : PagerDutyApi) (user_input : gmap string cfg)
    (api_key : cfg) :
  user_input !! CONF_API_KEY = Some api_key →
  let url := _get_api_url (default (CStr "US") (user_input !! "api_server")) in
  let tested := _test_api_key_and_fetch_user_data api api_key url in
  let result := async_step_user CONF_API_KEY api (Some user_input) in
  (∀ title data, result.1 = Returned (CreateEntry title data) ↔
     ∃ user, tested.1 = Returned (true, <["user" := CJson user]> ∅) ∧
       title = "PagerDuty" ∧
       data = <["api_base_url" := CStr url]>
                (<["user" := CJson user]> user_input)) ∧
  (∀ title data, result.1 = Returned (CreateEntry title data) →
     data !! "api_base_url" = Some (CStr url) ∧
     (∃ user, data !! "user" = Some (CJson user)) ∧
     ∀ k, k ≠ "api_base_url" → k ≠ "user" → data !! k = user_input !! k) ∧
  (∀ data, tested.1 = Returned (false, data) →
     result.1 = Returned (ShowForm "user" user_form_defaults
                            (<["base" := "invalid_api_key_or_roles"]> ∅))) ∧
  (∀ e, tested.1 = Raised e → result.1 = Raised e) ∧
  result.2 = tested.2.
Proof.
  intros Hkey url tested result.
  assert (result =
    match tested with
    | (Returned (true, user_data), requests) =>
        (Returned (CreateEntry "PagerDuty"
                     (<["api_base_url" := CStr url]> (user_data ∪ user_input))),
         requests)
    | (Returned (false, _), requests) =>
        (Returned (ShowForm "user" user_form_defaults
                     (<["base" := "invalid_api_key_or_roles"]> ∅)), requests)
    | (Raised e, requests) => (Raised e, requests)
    end) as Hresult.
  { unfold result, async_step_user. rewrite Hkey. fold url. fold tested.
    destruct tested as [[[[|] user_data]|e] requests]; [|done..].
    by rewrite decide_True. }
  rewrite Hresult. clear Hresult.
  destruct (test_key_result api api_key url)
    as [(user & requests & Ht)|[(requests & Ht)|(name & requests & Ht)]];
    fold tested in Ht; rewrite Ht; cbn [fst snd].
  - rewrite <- insert_union_l, (left_id_L ∅ (∪)). split_and!.
    + intros title data. split.
      * intros [= <- <-]. by exists user.
      * intros (user' & Heq & -> & ->).
        pose proof (f_equal (λ r, match r with
                                  | Returned (_, m) => m !! "user"
                                  | Raised _ => None
                                  end) Heq) as Hu.
        cbv beta iota in Hu. rewrite !lookup_insert_eq in Hu.
        by injection Hu as ->.
    + intros title data [= <- <-]. split_and!.
      * apply lookup_insert_eq.
      * exists user. rewrite lookup_insert_ne by done. apply lookup_insert_eq.
      * intros k Hk1 Hk2. by rewrite !lookup_insert_ne.
    + by intros data [=].
    + by intros e [=].
    + done.
  - split_and!; try done.
    intros title data. split; [done|]. by intros (? & [=] & _).
  - split_and!; try done.
    + intros title data. split; [done|]. by intros (? & [=] & _).
    + by intros e [= <-].
Qed.

(** X14: the user step sends requests only when it was given an input that
    holds an API key: without input it shows the empty form, without a key
    it raises [KeyError], and in both cases nothing is sent.  Every request
    it sends carries the submitted key and goes to the URL chosen by
    "api_server": the US one when that field is absent or equal to "US",
    the EU one for any other value. *)
Theorem user_step_requests (api : PagerDutyApi)
    (user_input : option (gmap string cfg)) :
  let result := async_step_user CONF_API_KEY api user_input in
  (user_input = None →
   result = (Returned (ShowForm "user" user_form_defaults ∅), [])) ∧
  (∀ ui, user_input = Some ui → ui !! CONF_API_KEY = None →
         result = (Raised KeyError, [])) ∧
  (∀ q, q ∈ result.2 →
     ∃ ui api_key, user_input = Some ui ∧ ui !! CONF_API_KEY = Some api_key ∧
       api_key_used q = api_key ∧
       api_url q = _get_api_url (default (CStr "US") (ui !! "api_server")) ∧
       (api_url q = "https://api.pagerduty.com" ↔
        ui !! "api_server" = None ∨ ui !! "api_server" = Some (CStr "US")) ∧
       (api_url q ≠ "https://api.pagerduty.com" →
        api_url q = "https://api.eu.pagerduty.com")).
Proof.
  intros result. split_and!.
  - by intros ->.
  - intros ui -> Hkey. unfold result, async_step_user. by rewrite Hkey.
  - intros q Hq. unfold result, async_step_user in Hq.
    destruct user_input as [ui|]; [|by apply elem_of_nil in Hq].
    destruct (ui !! CONF_API_KEY) as [api_key|] eqn:Hkey;
      [|by apply elem_of_nil in Hq].
    set (url := _get_api_url (default (CStr "US") (ui !! "api_server"))) in *.
    assert (q ∈ (_test_api_key_and_fetch_user_data api api_key url).2) as Hq'.
    { destruct (_test_api_key_and_fetch_user_data api api_key url)
        as [[[[|] user_data]|e] requests]; simpl in *; [|done..].
      by destruct (decide _). }
    destruct (test_key_requests _ _ _ _ Hq') as [Hk Hu].
    exists ui, api_key. split_and!; [done|done|done|done| |].
    + rewrite Hu. unfold url, _get_api_url.
      destruct (ui !! "api_server") as [[s|j]|]; simpl.
      * destruct (String.eqb s "US") eqn:Hs.
        -- apply String.eqb_eq in Hs as ->. split; [by right|done].
        -- apply String.eqb_neq in Hs. split; [done|].
           intros [?|[= ->]]; done.
      * split; [done|]. by intros [?|?].
      * split; [by left|done].
    + rewrite Hu. unfold url, _get_api_url.
      destruct (default (CStr "US") (ui !! "api_server")) as [s|j]; [|done].
      by destruct (String.eqb s "US").
Qed.

Lemma processed_abilities_spec (abilities : list string) : ∀ (acc : gset string) x,
  x ∈ foldl (λ acc ability, acc ∪ {[py_replace_with_empty ".read" ability]})
        acc abilities
  ↔ x ∈ acc ∨ ∃ ability, ability ∈ abilities ∧
                py_replace_with_empty ".read" ability = x.
Proof.
  induction abilities as [|a l IH]; intros acc x; simpl.
  - split; [by left|]. intros [?|(? & ?%elem_of_nil & _)]; done.
  - rewrite IH, elem_of_union, elem_of_singleton. split.
    + intros [[Hacc|Heq]|(b & Hb & Hx)]; [by left| |].
      * right. exists a. split; [by left|done].
      * right. exists b. split; [by right|done].
    + intros [Hacc|(b & Hb & Hx)]; [by left; left|].
      apply elem_of_cons in Hb as [Heq|Hb].
      * subst b. by left; right.
      * right. eauto.
Qed.

Lemma validate_user_roles_spec_aux (abilities : list string) :
  _validate_user_roles REQUIRED_ROLES abilities = true ↔
  ∃ role ability, role ∈ REQUIRED_ROLES ∧ ability ∈ abilities ∧
    py_replace_with_empty ".read" ability = role.
Proof.
  unfold _validate_user_roles. rewrite existsb_exists. split.
  - intros (role & Hrole%list_elem_of_In & Hin%bool_decide_eq_true).
    apply processed_abilities_spec in Hin
      as [?%not_elem_of_empty|(a & Ha & Hx)]; [done|].
    by exists role, a.
  - intros (role & a & Hrole & Ha & Hx). exists role.
    split; [by apply list_elem_of_In|].
    apply bool_decide_eq_true, processed_abilities_spec. right. eauto.
Qed.

(** X15: [_validate_user_roles] answers true exactly when some required
    role equals some ability with its occurrences of ".read" removed.  So it
    is false for no abilities, and abilities added to the list never turn a
    true answer into a false one. *)
Theorem validate_user_roles_spec (abilities : list string) :
  (_validate_user_roles REQUIRED_ROLES abilities = true ↔
   ∃ role ability, role ∈ REQUIRED_ROLES ∧ ability ∈ abilities ∧
     py_replace_with_empty ".read" ability = role) ∧
  _validate_user_roles REQUIRED_ROLES [] = false ∧
  (∀ more, _validate_user_roles REQUIRED_ROLES abilities = true →
     _validate_user_roles REQUIRED_ROLES (more ++ abilities) = true ∧
     _validate_user_roles REQUIRED_ROLES (abilities ++ more) = true).
Proof.
  pose proof validate_user_roles_spec_aux as Hspec.
  split_and!; [done| |].
  - apply not_true_is_false. rewrite Hspec.
    by intros (? & ? & _ & ?%elem_of_nil & _).
  - intros more (role & a & Hrole & Ha & Hx)%Hspec.
    split; apply Hspec; exists role, a; (split_and!; [done| |done]);
      apply elem_of_app; [by right|by left].
Qed.

(** X16: a required role whose name has no dot is granted by the ability
    of the same name, and by that name followed by ".read". *)
Theorem role_granted_by_read_ability (abilities : list string) (role : string) :
  role ∈ REQUIRED_ROLES →
  contains_char dot role = false →
  role ∈ abilities ∨ role +:+ ".read" ∈ abilities →
  _validate_user_roles REQUIRED_ROLES abilities = true.
Proof.
  intros Hrole Hdot Hab.
  apply validate_user_roles_spec_aux.
  destruct Hab as [Ha|Ha]; [exists role, role|exists role, (role +:+ ".read")];
    (split_and!; [done|done|]); unfold py_replace_with_empty;
    change (String.eqb ".read" "") with false; cbv iota;
    change ".read" with (String dot "read").
  - rewrite <- (append_empty_r role) at 1.
    by rewrite drop_occurrences_after, append_empty_r.
  - rewrite drop_occurrences_after by done.
    pose proof (drop_occurrences_head dot "read" "") as Hhead.
    rewrite append_empty_r in Hhead. rewrite Hhead.
    apply append_empty_r.
Qed.

(** X17: the options form reopened after a submission shows what was
    submitted.  A submission is saved whole, whatever the entry holds; and
    when the options of the entry are a saved submission, the two fields of
    the form default to the values it holds for them, also when the entry
    data has other values; a field the options lack falls back to the entry
    data, and to the empty string when the data lacks it too. *)
Theorem options_form_shows_saved_values (config_entry : @ConfigEntry json)
    (submitted : gmap string cfg) (data : gmap string cfg) (key : string) :
  key = "extra_incident_attributes_template" ∨ key = "default_from_email" →
  async_step_init config_entry (Some submitted) = CreateEntry "" submitted ∧
  ∃ defaults,
    async_step_init {| entry_data := data; entry_options := submitted |} None
      = ShowForm "init" defaults ∅ ∧
    (∀ v, submitted !! key = Some v → defaults !! key = Some v) ∧
    (submitted !! key = None →
     defaults !! key = Some (default (CStr "") (data !! key))).
Proof.
  intros Hkey. split; [done|]. eexists. split; [reflexivity|]. simpl.
  destruct Hkey as [-> | ->].
  - rewrite lookup_insert_eq. split; [by intros v ->|by intros ->].
  - rewrite lookup_insert_ne by done. rewrite lookup_insert_eq.
    split; [by intros v ->|by intros ->].
Qed.
End config_more.
(** * Instances of the statements on sample data *)

#[local] Existing Instance braces_repr.

Ltac by_cases_on_snapshot Hin :=
  repeat (apply elem_of_cons in Hin as [->|Hin]);
  [..|by apply elem_of_nil in Hin].

(** Button B is tracked; the new snapshot has A triggered and B resolved. *)
Lemma reconcile_tracks_exactly_triggered_witness :
  let w := (async_add_remove_buttons "" (snapshot [incident_B]) empty_world).2 in
  let c := snapshot [incident_A; <["status" := VStr "resolved"]> incident_B] in
  (∃ w', async_add_remove_buttons "" c w = (Returned (), w')) ∧
  (∀ k, k ∈ dom (tracked_buttons (async_add_remove_buttons "" c w).2)
        ↔ triggered_key (incidents c) k).
Proof.
  intros w c.
  destruct (reconcile_tracks_exactly_triggered "" c w) as [Hc Hk].
  split.
  - apply Hc. intros inc Hin Ht. by_cases_on_snapshot Hin.
    + split; eexists; reflexivity.
    + vm_compute in Ht. destruct Ht.
  - apply (Hk (async_add_remove_buttons "" c w).2). vm_compute. reflexivity.
Defined.

Lemma reconcile_idempotent_witness :
  let c := snapshot [incident_A; incident_B] in
  let w' := (async_add_remove_buttons "" c empty_world).2 in
  ∃ w'', async_add_remove_buttons "" c w' = (Returned (), w'') ∧
    tracked_buttons w'' = tracked_buttons w' ∧ log w'' = log w'.
Proof.
  intros c w'.
  apply (reconcile_idempotent "" c empty_world w').
  vm_compute. reflexivity.
Defined.

(** Button A was built from the title "Disk full"; the new snapshot calls
    the incident "Disk almost full". *)
Lemma reconcile_keeps_tracked_button_witness :
  let w := (async_add_remove_buttons "" (snapshot [incident_A]) empty_world).2 in
  let c := snapshot [incident_A_renamed] in
  let w' := (async_add_remove_buttons "" c w).2 in
  (tracked_buttons w' !! AStr "A" = Some button_A ∧
   extra_state_attributes <$> tracked_buttons w' !! AStr "A"
     = Some (extra_state_attributes button_A)) ∧
  extra_state_attributes button_A !! "incident_title" = Some (VStr "Disk full").
Proof.
  intros w c w'. split; [|reflexivity].
  apply (reconcile_keeps_tracked_button "" c w
           (async_add_remove_buttons "" c w).1 w' (AStr "A") button_A).
  - vm_compute. reflexivity.
  - exists incident_A_renamed. split; [by left|]. split; reflexivity.
  - vm_compute. reflexivity.
Defined.

Lemma reconcile_tracks_missing_id_as_none_witness :
  let c := snapshot [incident_A; entry_without_id] in
  ∃ w', async_add_remove_buttons "" c empty_world = (Returned (), w') ∧
    is_Some (tracked_buttons w' !! ANone) ∧
    ∀ k, is_Some (tracked_buttons w' !! k) ↔ triggered_key (incidents c) k.
Proof.
  intros c.
  apply (reconcile_tracks_missing_id_as_none "" c empty_world
           entry_without_id).
  - right. by left.
  - vm_compute. exact I.
  - reflexivity.
  - eexists. reflexivity.
  - intros i Hin Ht Hne. by_cases_on_snapshot Hin.
    + split; eexists; reflexivity.
    + done.
Defined.

(** C7, as stated, fails: the entry without an id is not skipped.  The pass
    builds a button from it, tracks it under the key [None] and announces
    it. *)
Lemma missing_id_entry_is_not_skipped :
  let c := snapshot [entry_without_id] in
  let b := {| _incident_id := VNone;
              _incident_number := VInt 9;
              _incident_title := VStr "Unknown";
              _service_name := AStr "Unknown";
              _default_from_email := "";
              _attr_name := "Acknowledge Incident #9";
              _attr_unique_id := "pagerduty_ack_None" |} in
  entry_without_id !! "id" = None ∧
  new_button entry_without_id "" = Returned b ∧
  async_add_remove_buttons "" c empty_world
    = (Returned (), {| tracked_buttons := {[ ANone := b ]};
                       log := [AddEntities b] |}).
Proof. split_and!; vm_compute; reflexivity. Qed.

(** An entry whose [service] is not an object does abort the pass: the
    button for the entry before it is tracked, the entry after it is never
    looked at. *)
Lemma bad_service_entry_aborts_pass :
  let c := snapshot [incident_A; entry_with_bad_service; incident_B] in
  ∃ w', async_add_remove_buttons "" c empty_world = (Raised AttributeError, w') ∧
    is_Some (tracked_buttons w' !! AStr "A") ∧
    tracked_buttons w' !! AStr "B" = None.
Proof. eexists. split_and!; [vm_compute; reflexivity|by eexists|reflexivity]. Qed.

Lemma available_only_if_triggered_witness :
  (∃ inc, inc ∈ [incident_B; incident_A] ∧ py_get inc "id" = VStr "A" ∧
          py_get inc "status" = VStr "triggered") ∧
  available button_A (snapshot [incident_B]) = false ∧
  available button_A (snapshot [incident_B; incident_A_acknowledged]) = false.
Proof.
  split_and!.
  - apply (proj1 (available_only_if_triggered button_A
                    (snapshot [incident_B; incident_A]))).
    reflexivity.
  - apply (proj1 (proj2 (available_only_if_triggered button_A
                           (snapshot [incident_B])))).
    intros i Hin. by_cases_on_snapshot Hin. vm_compute. discriminate.
  - apply (proj2 (proj2 (available_only_if_triggered button_A
                           (snapshot [incident_B; incident_A_acknowledged])))
             [incident_B] incident_A_acknowledged []).
    + reflexivity.
    + intros i Hin. by_cases_on_snapshot Hin. vm_compute. discriminate.
    + reflexivity.
    + vm_compute. discriminate.
Defined.

(** The acknowledged entry for A comes first; the triggered duplicate after
    it is not consulted. *)
Lemma available_first_match_decides_witness :
  available button_A
    (snapshot [incident_B; incident_A_acknowledged; incident_A])
  = bool_decide (py_get incident_A_acknowledged "status" = VStr "triggered")
  ∧ bool_decide (py_get incident_A_acknowledged "status" = VStr "triggered")
    = false.
Proof.
  split; [|reflexivity].
  apply (available_first_match_decides button_A _
           [incident_B] incident_A_acknowledged [incident_A]).
  - reflexivity.
  - intros i Hin. by_cases_on_snapshot Hin. vm_compute. discriminate.
  - reflexivity.
Defined.

Lemma button_unique_id_and_name_witness :
  ∃ b, new_button incident_A "ops@example.com" = Returned b ∧
    _attr_unique_id b = "pagerduty_ack_A" ∧
    _attr_name b = "Acknowledge Incident #7".
Proof.
  destruct (button_unique_id_and_name incident_A "ops@example.com")
    as [Hreturns Hfields].
  destruct Hreturns as [b Hb]; [eexists; reflexivity|].
  exists b. split; [exact Hb|].
  destruct (Hfields b Hb) as (_ & _ & Hid & Hname). split.
  - apply (Hid "A"). reflexivity.
  - rewrite (Hname 7%Z); reflexivity.
Defined.

(** C8, as stated, fails: the unique id of the button for incident A is
    "pagerduty_ack_A", not "ack_A". *)
Lemma button_unique_id_is_not_ack_prefixed :
  new_button incident_A "" = Returned button_A ∧
  _attr_unique_id button_A = "pagerduty_ack_A" ∧
  _attr_unique_id button_A ≠ "ack_" +:+ "A".
Proof. split_and!; [reflexivity|reflexivity|discriminate]. Qed.

(** A button with an operator email, for the press. *)
Lemma press_issues_one_rput_witness :
  let b := {| _incident_id := VStr "A"; _incident_number := VInt 7;
              _incident_title := VStr "Disk full"; _service_name := AStr "db";
              _default_from_email := "ops@example.com";
              _attr_name := "Acknowledge Incident #7";
              _attr_unique_id := "pagerduty_ack_A" |} in
  ∃ rest,
    log (async_press b accepting_session (Returned ()) empty_world).2
      = Rput {| req_url := "/incidents/A";
                req_json := <["type" := "incident"]>
                              (<["status" := "acknowledged"]> ∅);
                req_headers := <["From" := "ops@example.com"]> ∅ |} :: rest ∧
    ∀ q, Rput q ∉ rest.
Proof.
  intros b.
  destruct (press_issues_one_rput b accepting_session (Returned ()) empty_world)
    as (r & w' & rest & Hrun & Hlog & Hone & _).
  exists rest. split; [|exact Hone].
  rewrite Hrun. exact Hlog.
Defined.

Lemma press_refreshes_iff_acknowledged_witness :
  let w := (async_add_remove_buttons "" (snapshot [incident_A]) empty_world).2 in
  (∃ w', async_press button_A failing_session (Returned ()) w
           = (Raised (RemoteError "HTTP 403"), w') ∧
         tracked_buttons w' = tracked_buttons w ∧
         log w' = log w ++ [Rput (acknowledge_request button_A)]) ∧
  (∃ w', async_press button_A accepting_session (Returned ()) w
           = (Returned (), w') ∧
         log w' = log w ++ [Rput (acknowledge_request button_A); RequestRefresh]).
Proof.
  intros w. split.
  - destruct (press_refreshes_iff_acknowledged button_A failing_session
                (Returned ()) w)
      as (r & w' & evs & Hrun & Hlog & Htracked & _ & _ & Hfail).
    destruct (Hfail (RemoteError "HTTP 403")) as [-> ->]; [reflexivity|].
    exists w'. split_and!; [exact Hrun|exact Htracked|exact Hlog].
  - destruct (press_refreshes_iff_acknowledged button_A accepting_session
                (Returned ()) w)
      as (r & w' & evs & Hrun & Hlog & _ & _ & Hok & _).
    destruct Hok as [-> ->]; [reflexivity|].
    exists w'. split; [exact Hrun|exact Hlog].
Defined.



(** * Instances of the further properties *)

Ltac by_cases_on_registry He :=
  unfold registry_123 in He;
  repeat (apply elem_of_cons in He as [[= -> ->]|He]);
  [..|by apply elem_of_nil in He].

Lemma pass_keeps_buttons_under_their_id_witness :
  let w := (async_add_remove_buttons "" (snapshot [incident_A]) empty_world).2 in
  let c := snapshot [incident_A_renamed; incident_B] in
  let w' := (async_add_remove_buttons "" c w).2 in
  tracked_consistent "" w' ∧
  ∀ k b, tracked_buttons w' !! k = Some b →
    _incident_id b = VAtom k ∧
    _attr_unique_id b = "pagerduty_ack_" +:+ py_str (VAtom k) ∧
    _default_from_email b = "".
Proof.
  intros w c w'.
  apply (pass_keeps_buttons_under_their_id "" c w
           (async_add_remove_buttons "" c w).1 w').
  - apply (pass_keeps_buttons_under_their_id "" (snapshot [incident_A])
             empty_world
             (async_add_remove_buttons "" (snapshot [incident_A]) empty_world).1
             w).
    + intros k b Hb. vm_compute in Hb. discriminate.
    + vm_compute. reflexivity.
  - vm_compute. reflexivity.
Defined.

Lemma pass_raises_only_on_malformed_entry_witness :
  let c := snapshot [incident_A; entry_with_bad_service; incident_B] in
  let w' := (async_add_remove_buttons "" c empty_world).2 in
  ∃ inc, inc ∈ incidents c ∧ is_triggered inc ∧
    ((AttributeError = TypeError ∧ ∃ d, py_get inc "id" = VDict d) ∨
     (AttributeError = AttributeError ∧
      ∃ k a, py_get inc "id" = VAtom k ∧ tracked_buttons w' !! k = None ∧
             py_get_default inc "service" (VDict ∅) = VAtom a)).
Proof.
  intros c w'.
  apply (pass_raises_only_on_malformed_entry "" c empty_world
           AttributeError w').
  vm_compute. reflexivity.
Defined.

Lemma aborted_pass_removes_nothing_witness :
  let w := (async_add_remove_buttons "" (snapshot [incident_B]) empty_world).2 in
  let c := snapshot [incident_A; entry_with_bad_service] in
  let w' := (async_add_remove_buttons "" c w).2 in
  (async_add_remove_buttons "" c w).1 = Raised AttributeError ∧
  tracked_buttons w' !! AStr "B" = tracked_buttons w !! AStr "B" ∧
  ∃ added, log w' = log w ++ (AddEntities <$> added).
Proof.
  intros w c w'.
  destruct (aborted_pass_removes_nothing "" c w AttributeError w')
    as [Hkept (added & Hlog & _)].
  { vm_compute. reflexivity. }
  split_and!.
  - vm_compute. reflexivity.
  - destruct (tracked_buttons w !! AStr "B") as [b|] eqn:Hb.
    + by apply Hkept.
    + vm_compute in Hb. discriminate.
  - by exists added.
Defined.

(** Two triggered entries for A: the button shows the title of the first. *)
Lemma button_built_from_first_triggered_entry_witness :
  let c := snapshot [incident_B; incident_A; incident_A_renamed] in
  let w' := (async_add_remove_buttons "" c empty_world).2 in
  ∃ b, new_button incident_A "" = Returned b ∧
       tracked_buttons w' !! AStr "A" = Some b.
Proof.
  intros c w'.
  apply (button_built_from_first_triggered_entry "" c empty_world w'
           [incident_B] incident_A [incident_A_renamed] (AStr "A")).
  - reflexivity.
  - intros i Hin _. by_cases_on_snapshot Hin. vm_compute. discriminate.
  - vm_compute. exact I.
  - reflexivity.
  - reflexivity.
  - vm_compute. reflexivity.
Defined.

Lemma pass_one_event_per_key_witness :
  let w := (async_add_remove_buttons "" (snapshot [incident_B]) empty_world).2 in
  let c := snapshot [incident_A; incident_A_renamed; incident_A] in
  let w' := (async_add_remove_buttons "" c w).2 in
  ∃ created destroyed : list (atom * PagerDutyAcknowledgeButton),
    log w' = log w ++ (AddEntities <$> created.*2)
                   ++ (RemoveEntity <$> destroyed.*2) ∧
    NoDup created.*1 ∧ NoDup destroyed.*1 ∧
    (∀ k b, (k, b) ∈ created ↔
            tracked_buttons w !! k = None ∧ tracked_buttons w' !! k = Some b) ∧
    (∀ k b, (k, b) ∈ destroyed ↔
            tracked_buttons w !! k = Some b ∧ tracked_buttons w' !! k = None).
Proof.
  intros w c w'. apply (pass_one_event_per_key "" c w w').
  vm_compute. reflexivity.
Defined.

Lemma tracked_and_available_agree_witness :
  let c := snapshot [incident_B; incident_A] in
  let w' := (async_add_remove_buttons "" c empty_world).2 in
  is_Some (tracked_buttons w' !! AStr "A") ∧ available button_A c = true.
Proof.
  intros c w'.
  destruct (tracked_and_available_agree "" c empty_world w')
    as [Havailable Htracked].
  { vm_compute. reflexivity. }
  split.
  - apply (Havailable button_A (AStr "A")); reflexivity.
  - apply (Htracked) with (k := AStr "A").
    + apply (bool_decide_unpack _). vm_compute. exact I.
    + vm_compute. reflexivity.
    + reflexivity.
Defined.

Lemma pass_without_incidents_clears_witness :
  let w := (async_add_remove_buttons "" (snapshot [incident_A; incident_B])
              empty_world).2 in
  let c := {| data_incidents := None |} in
  ∃ w' destroyed,
    async_add_remove_buttons "" c w = (Returned (), w') ∧
    tracked_buttons w' = ∅ ∧
    log w' = log w ++ (RemoveEntity <$> destroyed) ∧
    ∀ b, b ∈ destroyed ↔ ∃ k, tracked_buttons w !! k = Some b.
Proof.
  intros w c. apply (pass_without_incidents_clears "" c w). reflexivity.
Defined.

Lemma setup_leaves_no_orphan_witness :
  let done := async_setup_entry registry_123 "entry" "" snapshot_only_2 in
  ∃ k b, tracked_buttons done.2.2 !! k = Some b ∧
         _attr_unique_id b = "pagerduty_ack_2".
Proof.
  intros done.
  destruct (setup_leaves_no_orphan registry_123 "entry" "" snapshot_only_2
              done.1 done.2.2) as (_ & _ & Hmatch).
  { vm_compute. reflexivity. }
  apply (Hmatch "button.acknowledge_incident_2"
           {| unique_id := "pagerduty_ack_2"; config_entry_id := "entry" |}).
  - vm_compute. by left.
  - reflexivity.
  - reflexivity.
  - intros eid' e' He' Hcfg Hu. by_cases_on_registry He'; done.
Defined.

Lemma sweep_idempotent_witness :
  remove_orphaned_entities
    (remove_orphaned_entities registry_123 "entry" snapshot_only_2)
    "entry" snapshot_only_2
  = remove_orphaned_entities registry_123 "entry" snapshot_only_2.
Proof.
  apply (sweep_idempotent registry_123 "entry" snapshot_only_2).
  intros eid1 e1 eid2 e2 He1 He2 Hcfg1 Hcfg2 Hu.
  by_cases_on_registry He1; by_cases_on_registry He2; done.
Defined.

(** Incident B has neither title nor service. *)
Lemma new_button_shows_incident_fields_witness :
  ∃ b, new_button incident_B "" = Returned b ∧
    extra_state_attributes b !! "incident_id" = Some (VStr "B") ∧
    extra_state_attributes b !! "incident_title" = Some (VStr "Unknown") ∧
    extra_state_attributes b !! "service_name" = Some (VStr "Unknown").
Proof.
  eexists. split; [reflexivity|].
  destruct (new_button_shows_incident_fields incident_B "" _ eq_refl)
    as (Hid & _ & Htitle & Hservice & _).
  split_and!; [exact Hid|exact Htitle|].
  apply Hservice. reflexivity.
Defined.

Lemma string_ids_give_distinct_unique_ids_witness :
  ∃ b, new_button incident_B "" = Returned b ∧
    (_attr_unique_id button_A = _attr_unique_id b ↔ "A" = "B").
Proof.
  eexists. split; [reflexivity|].
  apply (string_ids_give_distinct_unique_ids incident_A incident_B "" ""
           button_A _ "A" "B"); reflexivity.
Defined.

Lemma api_key_accepted_iff_both_answered_witness :
  (_test_api_key_and_fetch_user_data sample_api (CStr "good")
     "https://api.pagerduty.com").1
  = Returned (true, <["user" := CJson "/users/me"]> ∅) ∧
  _test_api_key_and_fetch_user_data sample_api (CStr "")
     "https://api.pagerduty.com"
  = (Raised (RemoteError "ValueError"), []).
Proof.
  pose proof (api_key_accepted_iff_both_answered sample_api (CStr "good")
                "https://api.pagerduty.com") as Htest.
  pose proof (api_key_accepted_iff_both_answered sample_api (CStr "")
                "https://api.pagerduty.com") as Hempty.
  cbv zeta in Htest, Hempty.
  destruct Htest as (Haccepted & _).
  destruct Hempty as (_ & _ & _ & Hrefused & _).
  split.
  - apply Haccepted. split; [reflexivity|].
    exists "/abilities", "/users/me". split_and!; reflexivity.
  - apply Hrefused. reflexivity.
Defined.

Lemma user_step_creates_entry_iff_key_accepted_witness :
  (async_step_user "api_key" sample_api (Some sample_user_input)).1
  = Returned (CreateEntry "PagerDuty"
                (<["api_base_url" := CStr "https://api.eu.pagerduty.com"]>
                   (<["user" := CJson "/users/me"]> sample_user_input))).
Proof.
  pose proof (user_step_creates_entry_iff_key_accepted "api_key" sample_api
                sample_user_input (CStr "good") eq_refl) as Hstep.
  cbv zeta in Hstep. destruct Hstep as (Hcreate & _).
  apply Hcreate. exists "/users/me". split_and!; reflexivity.
Defined.

Lemma user_step_requests_witness :
  async_step_user "api_key" sample_api None
    = (Returned (ShowForm "user" user_form_defaults ∅), []) ∧
  async_step_user "api_key" sample_api
      (Some (delete "api_key" sample_user_input))
    = (Raised KeyError, []).
Proof.
  split.
  - apply (user_step_requests "api_key" sample_api None). reflexivity.
  - pose proof (user_step_requests "api_key" sample_api
                  (Some (delete "api_key" sample_user_input))) as Hstep.
    cbv zeta in Hstep. destruct Hstep as (_ & Hnokey & _).
    apply (Hnokey (delete "api_key" sample_user_input)); reflexivity.
Defined.

Lemma validate_user_roles_spec_witness :
  _validate_user_roles ["incidents"; "users"] ["teams.read"; "users.read"]
  = true.
Proof.
  apply (proj2 (proj1 (validate_user_roles_spec ["incidents"; "users"]
                         ["teams.read"; "users.read"]))).
  exists "users", "users.read". split_and!.
  - right. by left.
  - right. by left.
  - reflexivity.
Defined.

Lemma role_granted_by_read_ability_witness :
  _validate_user_roles ["incidents"; "users"] ["teams"; "users.read"] = true.
Proof.
  apply (role_granted_by_read_ability ["incidents"; "users"]
           ["teams"; "users.read"] "users").
  - right. by left.
  - reflexivity.
  - right. right. by left.
Defined.

Lemma options_form_shows_saved_values_witness :
  let submitted : gmap string (@cfgval string) :=
    <["default_from_email" := CStr "ops@example.com"]> ∅ in
  let data : gmap string (@cfgval string) :=
    <["default_from_email" := CStr "old@example.com"]>
    (<["extra_incident_attributes_template" := CStr "{{ x }}"]> ∅) in
  ∃ defaults,
    async_step_init {| entry_data := data; entry_options := submitted |} None
      = ShowForm "init" defaults ∅ ∧
    defaults !! "default_from_email" = Some (CStr "ops@example.com").
Proof.
  intros submitted data.
  destruct (options_form_shows_saved_values
              {| entry_data := data; entry_options := ∅ |} submitted data
              "default_from_email") as (_ & defaults & Hform & Hsaved & _).
  { by right. }
  exists defaults. split; [exact Hform|].
  apply Hsaved. reflexivity.
Defined.
